(** * A round-robin HTTP load balancer (main.go): model and properties

    The Go program keeps a slice of backends, each with a liveness flag,
    and a rotating cursor [current].  This development embeds the
    selection ([NextBackend]), the liveness probing ([HealthCheck],
    [HealthCheckPeriodically]), the dispatch entry point ([ServeHTTP]) and
    the construction done by [main], and proves the properties the
    specification states about them.

    Conventions.
    - Go's [int] is a 64-bit signed integer: it is a [Z] with the
      wrap-around of every addition written out ([int_add]); [%] is Go's
      truncated remainder ([Z.rem]) and panics on a zero divisor.
    - A run-time panic is a value of the error monad [res].
    - A [*Backend] is the index of its slot in [backends]: every slot holds
      a distinct pointer, created by [&Backend{...}] in [main].
    - Each method holds its mutex from its first to its last statement
      ([Lock]/[defer Unlock]); the methods are therefore modelled as atomic
      steps on the state, and concurrent executions as interleavings of
      such steps ([run]).
    - The network and the clock are the environment: a dial outcome per
      host ([Net]), an upstream exchange per host and request
      ([Upstream]), and the instants at which the ticker delivers.
    - The clock advances by the time the dials take.  What the program
      does between two dials is counted as taking no time, and a dial that
      times out as taking its timeout: an instant of the model is the
      earliest at which the program can be there, and the statements on
      instants are lower bounds or comparisons of two runs. *)

From Stdlib Require Import ZArith Ascii String Lia.
From stdpp Require Import base list.

Local Open Scope Z_scope.

(** ** Go's [int] *)

Module GoInt.

Definition MaxInt : Z := 2 ^ 63 - 1.
Definition MinInt : Z := - 2 ^ 63.

(** Two's complement wrap-around into [MinInt .. MaxInt]. *)
Definition wrap (z : Z) : Z := (z + 2 ^ 63) mod 2 ^ 64 - 2 ^ 63.

Definition int_add (a b : Z) : Z := wrap (a + b).

Definition in_range (z : Z) : Prop := MinInt <= z <= MaxInt.

End GoInt.
Import GoInt.

(** ** Panics and the error monad *)

Inductive panic : Type :=
| DivideByZero
| IndexOutOfRange (idx len : Z)
| Fatal (msg : string).   (* log.Fatal: the process exits *)

Inductive res (A : Type) : Type :=
| Ret (a : A)
| Panic (p : panic).
Arguments Ret {A} a.
Arguments Panic {A} p.

#[global] Instance res_ret : MRet res := fun A a => Ret a.

#[global] Instance res_bind : MBind res := fun A B k m =>
  match m with
  | Ret a => k a
  | Panic p => Panic p
  end.

(** [a % b] on [int]. *)
Definition int_rem (a b : Z) : res Z :=
  if b =? 0 then Panic DivideByZero else Ret (Z.rem a b).

(** [s[idx]] on a slice, with its bounds check. *)
Definition index {A : Type} (s : list A) (idx : Z) : res A :=
  if (0 <=? idx) && (idx <? Z.of_nat (length s)) then
    match s !! Z.to_nat idx with
    | Some a => Ret a
    | None => Panic (IndexOutOfRange idx (Z.of_nat (length s)))
    end
  else Panic (IndexOutOfRange idx (Z.of_nat (length s))).

(** ** HTTP exchange, as far as the balancer touches it *)

(** [url.URL], [http.Request], [httputil.ReverseProxy]: the parts used. *)
Record url_URL : Type := mkURL { Scheme : string; Host : string }.

Record Request : Type := mkRequest { Method : string; Path : string; Body : string }.

(** What a handler does to its [http.ResponseWriter]. *)
Inductive write : Type :=
| WriteHeader (code : Z)
| WriteBody (s : string).

Definition ResponseWriter : Type := list write.

Definition StatusServiceUnavailable : Z := 503.

(** [http.Error(w, msg, code)]: the status line, then the message and a
    newline as the body. *)
Definition http_Error (w : ResponseWriter) (msg : string) (code : Z) : ResponseWriter :=
  w ++ [WriteHeader code; WriteBody (msg ++ String "010"%char EmptyString)%string].

(** Externally visible effects, in program order. *)
Inductive event : Type :=
| EvTick (at_time : Z)
| EvDial (host : string) (start : Z) (status : bool)
| EvPrint (msg : string)
| EvForward (host : string) (r : Request).

(** The upstream exchange of the reverse proxy: [inl err] is a transport
    error (refused, reset, timeout), [inr ws] the relayed response. *)
Definition Upstream : Type := string -> Request -> string + list write.

Record httputil_ReverseProxy : Type := mkProxy {
  Target : url_URL;
  ErrorHandler : ResponseWriter -> Request -> string -> ResponseWriter * list event
}.

(** [p.ServeHTTP(w, r)]: one exchange with the target; the error handler
    runs on a transport error. *)
Definition ReverseProxy_ServeHTTP (up : Upstream) (p : httputil_ReverseProxy)
    (w : ResponseWriter) (r : Request) : ResponseWriter * list event :=
  let fwd := EvForward (Host (Target p)) r in
  match up (Host (Target p)) r with
  | inr ws => (w ++ ws, [fwd])
  | inl err => let '(w', evs) := ErrorHandler p w r err in (w', fwd :: evs)
  end.

(** ** Backend *)

(** The field [mu] is the lock that [SetAlive] and [IsAlive] hold around
    their one access to [Alive]; it is free between any two steps. *)
Record Backend : Type := mkBackend {
  URL : url_URL;
  Alive : bool;
  ReverseProxy : httputil_ReverseProxy
}.

Definition SetAlive (b : Backend) (alive : bool) : Backend :=
  {| URL := URL b; Alive := alive; ReverseProxy := ReverseProxy b |}.

Definition IsAlive (b : Backend) : bool := Alive b.

(** ** LoadBalancer *)

(** The field [mu] is held by [NextBackend] from its first statement to its
    return, which makes a call one step on [current]. *)
Record LoadBalancer : Type := mkLB {
  backends : list Backend;
  current : Z
}.

Definition set_current (lb : LoadBalancer) (idx : Z) : LoadBalancer :=
  {| backends := backends lb; current := idx |}.

Definition len (lb : LoadBalancer) : Z := Z.of_nat (length (backends lb)).

(** The loop [for i := 0; i < nBackends; i++] of [NextBackend], entered at
    [i] with [remaining = nBackends - i] iterations left: the condition
    [i < nBackends] fails when [remaining] is [0]. *)
Fixpoint scan (lb : LoadBalancer) (nBackends next : Z) (remaining : nat) (i : Z)
    : res (option Z * LoadBalancer) :=
  match remaining with
  | O => Ret (None, lb)
  | S remaining' =>
      idx ← int_rem (int_add next i) nBackends;
      b ← index (backends lb) idx;
      if IsAlive b then Ret (Some idx, set_current lb idx)
      else scan lb nBackends next remaining' (int_add i 1)
  end.

Definition NextBackend (lb : LoadBalancer) : res (option Z * LoadBalancer) :=
  let nBackends := len lb in
  next ← int_rem (int_add (current lb) 1) nBackends;
  scan lb nBackends next (length (backends lb)) 0.

(** ** Liveness probing *)

(** [time.Duration] counts nanoseconds. *)
Definition Second : Z := 1000000000.

(** What the network does with a connection attempt to a host started at
    an instant: it is established or fails after a delay, or nothing
    comes back. *)
Inductive dial_outcome : Type :=
| Connected (after : Z)
| Failed (after : Z) (err : string)
| NoAnswer.

Definition Net : Type := Z -> string -> dial_outcome.

(** [net.DialTimeout("tcp", host, timeout)]: the error if any, and the time
    the call took at least; a call that times out returns at its deadline
    at the earliest. *)
Definition net_DialTimeout (net : Net) (clock : Z) (host : string) (timeout : Z)
    : option string * Z :=
  match net clock host with
  | Connected t => if t <? timeout then (None, t) else (Some "i/o timeout"%string, timeout)
  | Failed t err => if t <? timeout then (Some err, t) else (Some "i/o timeout"%string, timeout)
  | NoAnswer => (Some "i/o timeout"%string, timeout)
  end.

Definition newline : string := String "010"%char EmptyString.

(** Returns the status, the earliest instant at which it returns, and what
    it did. *)
Definition isBackendAlive (net : Net) (clock : Z) (u : url_URL) : bool * Z * list event :=
  let timeout := 2 * Second in
  let '(err, elapsed) := net_DialTimeout net clock (Host u) timeout in
  match err with
  | Some e =>
      (false, clock + elapsed,
       [EvDial (Host u) clock false;
        EvPrint ("server is unreachable: " ++ e ++ newline)%string])
  | None => (true, clock + elapsed, [EvDial (Host u) clock true])
  end.

Definition url_String (u : url_URL) : string := (Scheme u ++ "://" ++ Host u)%string.

(** The body of [for _, b := range lb.backends] in [HealthCheck], over the
    backends still to visit. *)
Fixpoint HealthCheck_range (net : Net) (clock : Z) (bs : list Backend)
    : list Backend * Z * list event :=
  match bs with
  | [] => ([], clock, [])
  | b :: rest =>
      let '(status, clock1, evs1) := isBackendAlive net clock (URL b) in
      let b' := SetAlive b status in
      let msg := if status
                 then ("server " ++ url_String (URL b) ++ " is alive" ++ newline)%string
                 else ("server " ++ url_String (URL b) ++ " is dead" ++ newline)%string in
      let '(rest', clock2, evs2) := HealthCheck_range net clock1 rest in
      (b' :: rest', clock2, evs1 ++ EvPrint msg :: evs2)
  end.

Definition HealthCheck (net : Net) (clock : Z) (lb : LoadBalancer)
    : LoadBalancer * Z * list event :=
  let '(bs, clock', evs) := HealthCheck_range net clock (backends lb) in
  ({| backends := bs; current := current lb |}, clock', evs).

(** [time.Tick(d)]: the channel delivers at the instants the runtime
    provides; for [d <= 0] it is the nil channel, which never delivers. *)
Definition time_Tick (d : Z) (deliveries : list Z) : list Z :=
  if d <=? 0 then [] else deliveries.

(** [for range ch { lb.HealthCheck() }] over the deliveries received so
    far: each receive returns when its tick has arrived. *)
Fixpoint HealthCheck_on_ticks (net : Net) (ch : list Z) (clock : Z) (lb : LoadBalancer)
    : LoadBalancer * Z * list event :=
  match ch with
  | [] => (lb, clock, [])
  | t :: ch' =>
      let now := Z.max clock t in
      let '(lb1, clock1, evs1) := HealthCheck net now lb in
      let '(lb2, clock2, evs2) := HealthCheck_on_ticks net ch' clock1 lb1 in
      (lb2, clock2, EvTick now :: evs1 ++ evs2)
  end.

(** The loop never ends: this is its execution up to the last of the given
    deliveries. *)
Definition HealthCheckPeriodically (net : Net) (interval : Z) (deliveries : list Z)
    (clock : Z) (lb : LoadBalancer) : LoadBalancer * Z * list event :=
  HealthCheck_on_ticks net (time_Tick interval deliveries) clock lb.

(** ** Dispatch *)

Definition ServeHTTP (up : Upstream) (lb : LoadBalancer) (w : ResponseWriter) (r : Request)
    : res (ResponseWriter * LoadBalancer * list event) :=
  '(backend, lb') ← NextBackend lb;
  match backend with
  | None =>
      Ret (http_Error w "service unavailable" StatusServiceUnavailable, lb', [])
  | Some p =>
      b ← index (backends lb') p;
      let '(w', evs) := ReverseProxy_ServeHTTP up (ReverseProxy b) w r in
      Ret (w', lb', evs)
  end.

(** ** Construction, as in [main] *)


(** [new(LoadBalancer)]: every field has its zero value. *)
Definition new_LoadBalancer : LoadBalancer := {| backends := []; current := 0 |}.

Section Main.

(** [url.Parse], of the standard library. *)
Variable url_Parse : string -> string + url_URL.

(** [httputil.NewSingleHostReverseProxy(u)] with the error handler [main]
    installs. *)
Definition new_proxy (u : url_URL) : httputil_ReverseProxy :=
  {| Target := u;
     ErrorHandler := fun w r err =>
       (http_Error w "service unavailable" StatusServiceUnavailable,
        [EvPrint (err ++ newline)%string]) |}.

(** [&Backend{URL: u, ReverseProxy: proxy}]: [Alive] is not set and has
    the zero value of [bool]. *)
Definition new_Backend (u : url_URL) (proxy : httputil_ReverseProxy) : Backend :=
  {| URL := u; Alive := false; ReverseProxy := proxy |}.

Fixpoint register (lb : LoadBalancer) (servers : list string) : res LoadBalancer :=
  match servers with
  | [] => Ret lb
  | serverURL :: rest =>
      match url_Parse serverURL with
      | inl err => Panic (Fatal err)
      | inr u =>
          let proxy := new_proxy u in
          register {| backends := backends lb ++ [new_Backend u proxy];
                      current := current lb |} rest
      end
  end.


(** The health checking [main] sets off: the initial check, then the
    periodic one every 10 seconds. *)
Definition main_health (net : Net) (deliveries : list Z) (clock : Z) (lb : LoadBalancer)
    : LoadBalancer * Z * list event :=
  let '(lb1, clock1, evs1) := HealthCheck net clock lb in
  let '(lb2, clock2, evs2) := HealthCheckPeriodically net (10 * Second) deliveries clock1 lb1 in
  (lb2, clock2, evs1 ++ evs2).

End Main.

(** ** Interleavings of the atomic steps

    Requests call [NextBackend]; the health checker calls [SetAlive] on one
    backend at a time, [lb.backends[k].SetAlive(alive)], between any two of
    them. *)

Inductive op : Type :=
| OpNextBackend
| OpSetAlive (k : nat) (alive : bool).

Definition step (o : op) (lb : LoadBalancer) : res (list (option Z) * LoadBalancer) :=
  match o with
  | OpNextBackend => '(p, lb') ← NextBackend lb; Ret ([p], lb')
  | OpSetAlive k alive =>
      b ← index (backends lb) (Z.of_nat k);
      Ret ([], {| backends := <[k := SetAlive b alive]> (backends lb);
                  current := current lb |})
  end.

(** The pointers returned so far, and the state reached or the panic that
    stopped the run. *)
Fixpoint run (ops : list op) (lb : LoadBalancer) : list (option Z) * res LoadBalancer :=
  match ops with
  | [] => ([], Ret lb)
  | o :: ops' =>
      match step o lb with
      | Panic p => ([], Panic p)
      | Ret (out, lb') => let '(outs, r) := run ops' lb' in (out ++ outs, r)
      end
  end.

(** [M] consecutive calls of [NextBackend]. *)
Definition NextBackend_times (M : nat) (lb : LoadBalancer) : list (option Z) * res LoadBalancer :=
  run (replicate M OpNextBackend) lb.

(** ** The state of a load balancer *)

(** The liveness flag behind a pointer; [false] for a pointer into
    nothing. *)
Definition alive_at (lb : LoadBalancer) (p : Z) : bool :=
  match index (backends lb) p with
  | Ret b => IsAlive b
  | Panic _ => false
  end.

Definition all_alive (lb : LoadBalancer) : Prop :=
  forall b, b ∈ backends lb -> Alive b = true.

Definition all_dead (lb : LoadBalancer) : Prop :=
  forall b, b ∈ backends lb -> Alive b = false.

(** The cursor is an index into [backends]. *)
Definition cursor_valid (lb : LoadBalancer) : Prop := 0 <= current lb < len lb.

(** A slice of pointers occupies [8 * len] bytes, and the runtime refuses
    to allocate a slice whose size in bytes overflows [int]. *)
Definition slice_fits (lb : LoadBalancer) : Prop := 8 * len lb <= MaxInt.


(** States the program can be in: [main] registers the backends on a new
    balancer, then the atomic steps run. *)
Inductive reachable : LoadBalancer -> Prop :=
| reachable_registered (bs : list Backend) :
    slice_fits {| backends := bs; current := 0 |} ->
    reachable {| backends := bs; current := 0 |}
| reachable_step (lb : LoadBalancer) (o : op) (out : list (option Z)) (lb' : LoadBalancer) :
    reachable lb -> step o lb = Ret (out, lb') -> reachable lb'.

(** How many of the calls returned the pointer [p]. *)
Definition returned (p : Z) (o : option Z) : bool :=
  match o with
  | Some q => q =? p
  | None => false
  end.

Definition visits (p : Z) (outs : list (option Z)) : Z :=
  Z.of_nat (length (List.filter (returned p) outs)).

(** The circular order starting immediately after the cursor [c]: the
    first [M] indices of [c + 1, c + 2, ...] modulo [N]. *)
Definition rotation (c N : Z) (M : nat) : list (option Z) :=
  map (fun k => Some ((c + 1 + Z.of_nat k) mod N)) (seq 0 M).

(** The step leaves the flag of backend [k] as it is when dead: it is not
    [SetAlive(true)] on that backend. *)
Definition revives (k : nat) (o : op) : bool :=
  match o with
  | OpSetAlive j true => Nat.eqb j k
  | _ => false
  end.

Definition flag_stays_dead (k : nat) (ops : list op) : Prop :=
  forall o, o ∈ ops -> revives k o = false.

(** ** Sample states *)

Definition sample_backend (host : string) (alive : bool) : Backend :=
  {| URL := mkURL "http" host; Alive := alive;
     ReverseProxy := new_proxy (mkURL "http" host) |}.

Definition three_alive : LoadBalancer :=
  {| backends := [sample_backend "a:1" true; sample_backend "b:2" true;
                  sample_backend "c:3" true];
     current := 0 |}.

Definition middle_dead : LoadBalancer :=
  {| backends := [sample_backend "a:1" true; sample_backend "b:2" false;
                  sample_backend "c:3" true];
     current := 2 |}.

Definition three_dead : LoadBalancer :=
  {| backends := [sample_backend "a:1" false; sample_backend "b:2" false;
                  sample_backend "c:3" false];
     current := 1 |}.

(** ** Reading the events *)

(** The connection attempts, in order: host, instant of the attempt,
    outcome. *)
Fixpoint dials (evs : list event) : list (string * Z * bool) :=
  match evs with
  | [] => []
  | EvDial host start status :: evs' => (host, start, status) :: dials evs'
  | _ :: evs' => dials evs'
  end.

(** How many connection attempts come before the first tick, and how many
    after each tick up to the next one. *)
Fixpoint dials_by_tick (evs : list event) : nat * list nat :=
  match evs with
  | [] => (O, [])
  | EvTick _ :: evs' => let '(h, t) := dials_by_tick evs' in (O, h :: t)
  | EvDial _ _ _ :: evs' => let '(h, t) := dials_by_tick evs' in (S h, t)
  | _ :: evs' => dials_by_tick evs'
  end.

(** The forwarded exchanges, in order. *)
Fixpoint forwards (evs : list event) : list (string * Request) :=
  match evs with
  | [] => []
  | EvForward host r :: evs' => (host, r) :: forwards evs'
  | _ :: evs' => forwards evs'
  end.

(** The outcome of a connection attempt to [host] at [clock], as
    [isBackendAlive] reads it. *)
Definition dial_ok (net : Net) (clock : Z) (host : string) : bool :=
  match (net_DialTimeout net clock host (2 * Second)).1 with
  | None => true
  | Some _ => false
  end.

Definition dial_elapsed (net : Net) (clock : Z) (host : string) : Z :=
  (net_DialTimeout net clock host (2 * Second)).2.

(** Two networks that differ at most in what happens to attempts on
    [host]. *)
Definition same_but (host : string) (net1 net2 : Net) : Prop :=
  forall t h, h <> host -> net1 t h = net2 t h.

(** The instant at which a health check attempts the connection to its
    [j]-th backend. *)
Definition probe_start (net : Net) (clock : Z) (lb : LoadBalancer) (j : nat) : option Z :=
  (fun d => d.1.2) <$> dials (HealthCheck net clock lb).2 !! j.

(** ** Sample environments *)


Definition net_up : Net := fun _ _ => Connected 1000.

Definition net_first_silent : Net :=
  fun _ host => if String.eqb host "a:1" then NoAnswer else Connected 1000.

Definition upstream_ok : Upstream :=
  fun host r => inr [WriteHeader 200; WriteBody ("served by " ++ host)%string].

Definition sample_request : Request := {| Method := "GET"; Path := "/"; Body := "" |}.


(** The reading of "one probe never delays another": what happens to the
    attempts on the host of one backend has no bearing on the instant at
    which any other backend is probed. *)
Definition probes_independent : Prop :=
  forall (net1 net2 : Net) (clock : Z) (lb : LoadBalancer) (i j : nat) (bi : Backend),
    backends lb !! i = Some bi -> i <> j ->
    same_but (Host (URL bi)) net1 net2 ->
    probe_start net1 clock lb j = probe_start net2 clock lb j.

(** The reading of "once immediately, then once per interval" on the
    events of a run: one full health check ([N] attempts) before the first
    tick, and one after each tick. *)
Definition immediately_then_per_tick (evs : list event) (N ticks : nat) : Prop :=
  dials_by_tick evs = (N, replicate ticks N).

(** ** Further readings of the state and of the events *)

(** The host behind a pointer; empty for a pointer into nothing. *)
Definition host_at (lb : LoadBalancer) (p : Z) : string :=
  match index (backends lb) p with
  | Ret b => Host (URL b)
  | Panic _ => EmptyString
  end.

(** Every backend forwards through the proxy [main] builds for its URL. *)
Definition proxied (lb : LoadBalancer) : Prop :=
  forall b, b ∈ backends lb -> ReverseProxy b = new_proxy (URL b).

(** How many of the steps are calls of [NextBackend]. *)
Definition calls (ops : list op) : nat :=
  length (List.filter (fun o => match o with OpNextBackend => true | _ => false end) ops).

(** Every [SetAlive] of the run is on a registered backend. *)
Definition on_registered (lb : LoadBalancer) (ops : list op) : Prop :=
  forall k alive, OpSetAlive k alive ∈ ops -> (k < length (backends lb))%nat.

(** The handler serving one request after the other, each on a response
    writer of its own: what was written for each, the state reached and
    the events. *)
Fixpoint serve_all (up : Upstream) (lb : LoadBalancer) (reqs : list Request)
    : res (list ResponseWriter * LoadBalancer * list event) :=
  match reqs with
  | [] => Ret ([], lb, [])
  | r :: reqs' =>
      '(w, lb1, evs1) ← ServeHTTP up lb [] r;
      '(ws, lb2, evs2) ← serve_all up lb1 reqs';
      Ret (w :: ws, lb2, evs1 ++ evs2)
  end.

Definition net_silent : Net := fun _ _ => NoAnswer.

Definition upstream_down : Upstream := fun _ _ => inl "connection refused"%string.
(** * Properties *)

(** ** Arithmetic on [int] *)

Lemma wrap_small (z : Z) : in_range z -> wrap z = z.
Proof.
  unfold in_range, MinInt, MaxInt, wrap. intros Hz.
  rewrite Z.mod_small; lia.
Qed.

Lemma int_add_small (a b : Z) : in_range (a + b) -> int_add a b = a + b.
Proof. apply wrap_small. Qed.

Lemma int_rem_nonneg (a b : Z) : 0 <= a -> 0 < b -> int_rem a b = Ret (a mod b).
Proof.
  intros Ha Hb. unfold int_rem.
  destruct (Z.eqb_spec b 0) as [->|_]; [lia|].
  by rewrite Z.rem_mod_nonneg by lia.
Qed.

Lemma bind_Ret {A B : Type} (a : A) (k : A -> res B) : (Ret a ≫= k) = k a.
Proof. reflexivity. Qed.

Lemma bind_Panic {A B : Type} (p : panic) (k : A -> res B) : (Panic p ≫= k) = Panic p.
Proof. reflexivity. Qed.

Lemma bind_inv {A B : Type} (m : res A) (k : A -> res B) (b : B) :
  m ≫= k = Ret b -> exists a, m = Ret a /\ k a = Ret b.
Proof. destruct m as [a|p]; [eauto | discriminate]. Qed.

(** ** Slices *)

Lemma index_Ret {A : Type} (s : list A) (idx : Z) (a : A) :
  index s idx = Ret a <-> 0 <= idx /\ s !! Z.to_nat idx = Some a.
Proof.
  unfold index. split.
  - destruct (Z.leb_spec 0 idx), (Z.ltb_spec idx (Z.of_nat (length s))); simpl;
      try discriminate.
    destruct (s !! Z.to_nat idx); [|discriminate]. intros [= ->]. auto.
  - intros [Hi Hl]. pose proof (lookup_lt_Some _ _ _ Hl) as Hlt.
    destruct (Z.leb_spec 0 idx); [|lia].
    destruct (Z.ltb_spec idx (Z.of_nat (length s))); [|lia].
    simpl. by rewrite Hl.
Qed.

Lemma index_in_range {A : Type} (s : list A) (idx : Z) :
  0 <= idx < Z.of_nat (length s) -> exists a, index s idx = Ret a.
Proof.
  intros Hi. destruct (lookup_lt_is_Some_2 s (Z.to_nat idx)) as [a Ha]; [lia|].
  exists a. apply index_Ret. split; [lia|done].
Qed.

(** ** [scan] and [NextBackend] on any state *)

Lemma scan_backends lb n next remaining i p lb' :
  scan lb n next remaining i = Ret (p, lb') -> backends lb' = backends lb.
Proof.
  revert i. induction remaining as [|k IH]; intros i; simpl.
  - by intros [= _ <-].
  - intros H. apply bind_inv in H as (idx & _ & H).
    apply bind_inv in H as (b & _ & H).
    destruct (IsAlive b); [by injection H as _ <- | eauto].
Qed.

Lemma scan_Some lb n next remaining i p lb' :
  scan lb n next remaining i = Ret (Some p, lb') ->
  lb' = set_current lb p /\ alive_at lb p = true.
Proof.
  revert i. induction remaining as [|k IH]; intros i; simpl; [discriminate|].
  intros H. apply bind_inv in H as (idx & _ & H).
  apply bind_inv in H as (b & Hb & H).
  destruct (IsAlive b) eqn:Hal; [|eauto].
  injection H as <- <-. split; [done|]. unfold alive_at. by rewrite Hb.
Qed.

Lemma scan_None lb n next remaining i lb' :
  scan lb n next remaining i = Ret (None, lb') -> lb' = lb.
Proof.
  revert i. induction remaining as [|k IH]; intros i; simpl.
  - by intros [= <-].
  - intros H. apply bind_inv in H as (idx & _ & H).
    apply bind_inv in H as (b & _ & H).
    destruct (IsAlive b); [discriminate | eauto].
Qed.

Lemma NextBackend_backends lb p lb' :
  NextBackend lb = Ret (p, lb') -> backends lb' = backends lb.
Proof.
  unfold NextBackend. intros H. apply bind_inv in H as (next & _ & H).
  eapply scan_backends, H.
Qed.

Lemma NextBackend_Some lb p lb' :
  NextBackend lb = Ret (Some p, lb') ->
  lb' = set_current lb p /\ alive_at lb p = true.
Proof.
  unfold NextBackend. intros H. apply bind_inv in H as (next & _ & H).
  eapply scan_Some, H.
Qed.

Lemma NextBackend_None lb lb' : NextBackend lb = Ret (None, lb') -> lb' = lb.
Proof.
  unfold NextBackend. intros H. apply bind_inv in H as (next & _ & H).
  eapply scan_None, H.
Qed.

Lemma alive_at_true lb p :
  alive_at lb p = true <->
  exists b, 0 <= p /\ backends lb !! Z.to_nat p = Some b /\ Alive b = true.
Proof.
  unfold alive_at. split.
  - destruct (index (backends lb) p) as [b|] eqn:Hb; [|discriminate].
    apply index_Ret in Hb as [? ?]. eauto.
  - intros (b & Hp & Hb & Hal).
    assert (index (backends lb) p = Ret b) as -> by (by apply index_Ret).
    done.
Qed.

(** ** [NextBackend] on a state with a valid cursor *)

Section Scan.

Variable lb : LoadBalancer.
Hypothesis Hfits : slice_fits lb.

Lemma alive_at_index p :
  0 <= p < len lb -> exists b, index (backends lb) p = Ret b /\ alive_at lb p = Alive b.
Proof.
  intros Hp. destruct (index_in_range (backends lb) p Hp) as [b Hb].
  exists b. split; [done|]. unfold alive_at. by rewrite Hb.
Qed.

(** The loop returns the first live candidate at or after [i], in the
    circular order from [next], and none when there is no such one. *)
Lemma scan_first_alive next remaining i :
  0 <= next < len lb -> 0 <= i -> i + Z.of_nat remaining = len lb ->
  (scan lb (len lb) next remaining i = Ret (None, lb) /\
   forall j, i <= j < len lb -> alive_at lb ((next + j) mod len lb) = false)
  \/
  (exists j, i <= j < len lb /\
     scan lb (len lb) next remaining i
       = Ret (Some ((next + j) mod len lb), set_current lb ((next + j) mod len lb)) /\
     alive_at lb ((next + j) mod len lb) = true /\
     forall j', i <= j' < j -> alive_at lb ((next + j') mod len lb) = false).
Proof.
  intros Hnext. revert i.
  induction remaining as [|k IH]; intros i Hi Hrem.
  - left. split; [done|]. intros j Hj. lia.
  - assert (HN : 8 * len lb <= MaxInt) by exact Hfits.
    unfold MaxInt in HN.
    cbn [scan].
    rewrite (int_add_small next i), (int_add_small i 1)
      by (unfold in_range, MinInt, MaxInt; lia).
    rewrite int_rem_nonneg, bind_Ret by lia.
    assert (Hidx : 0 <= (next + i) mod len lb < len lb) by (apply Z.mod_pos_bound; lia).
    destruct (alive_at_index _ Hidx) as (b & -> & Hal).
    rewrite bind_Ret. unfold IsAlive. rewrite <- Hal.
    destruct (alive_at lb ((next + i) mod len lb)) eqn:Hi_alive.
    + right. exists i. repeat split; [lia|lia|done|]. intros j' Hj'. lia.
    + destruct (IH (i + 1)) as [[Hs Hdead]|(j & Hj & Hs & Hal_j & Hdead)]; [lia|lia| |].
      * left. split; [done|]. intros j Hj.
        destruct (Z.eq_dec j i) as [->|]; [done|]. apply Hdead. lia.
      * right. exists j. repeat split; [lia|lia|done|done|].
        intros j' Hj'. destruct (Z.eq_dec j' i) as [->|]; [done|]. apply Hdead. lia.
Qed.

Hypothesis Hcur : cursor_valid lb.

(** Steps 2 to 5 of the selection: the candidates are
    [(current + 1 + j) mod N] for [j = 0 .. N - 1], in this order. *)
Lemma NextBackend_first_alive :
  (NextBackend lb = Ret (None, lb) /\
   forall j, 0 <= j < len lb -> alive_at lb ((current lb + 1 + j) mod len lb) = false)
  \/
  (exists j, 0 <= j < len lb /\
     NextBackend lb
       = Ret (Some ((current lb + 1 + j) mod len lb),
              set_current lb ((current lb + 1 + j) mod len lb)) /\
     alive_at lb ((current lb + 1 + j) mod len lb) = true /\
     forall j', 0 <= j' < j -> alive_at lb ((current lb + 1 + j') mod len lb) = false).
Proof.
  assert (HN : 8 * len lb <= MaxInt) by exact Hfits.
  assert (Hc : 0 <= current lb < len lb) by exact Hcur.
  unfold MaxInt in HN.
  unfold NextBackend.
  rewrite int_add_small by (unfold in_range, MinInt, MaxInt; lia).
  rewrite int_rem_nonneg, bind_Ret by lia.
  assert (Hnext : 0 <= (current lb + 1) mod len lb < len lb) by (apply Z.mod_pos_bound; lia).
  assert (Hshift : forall j, ((current lb + 1) mod len lb + j) mod len lb = (current lb + 1 + j) mod len lb)
    by (intros j; apply Zplus_mod_idemp_l).
  destruct (scan_first_alive ((current lb + 1) mod len lb) (length (backends lb)) 0)
    as [[Hs Hdead]|(j & Hj & Hs & Hal & Hdead)]; [done|lia|unfold len; lia| |].
  - left. split; [done|]. intros j Hj. rewrite <- Hshift. by apply Hdead.
  - right. exists j. rewrite <- !Hshift. repeat split; [lia|lia|done|done|].
    intros j' Hj'. rewrite <- Hshift. by apply Hdead.
Qed.

End Scan.

(** ** All backends alive: the rotation *)

Lemma all_alive_alive_at lb p : all_alive lb -> 0 <= p < len lb -> alive_at lb p = true.
Proof.
  intros Hall Hp. destruct (index_in_range (backends lb) p Hp) as [b Hb].
  unfold alive_at. rewrite Hb. apply Hall.
  apply index_Ret in Hb as [_ Hb]. by eapply list_elem_of_lookup_2.
Qed.

Lemma all_dead_alive_at lb p : all_dead lb -> alive_at lb p = false.
Proof.
  intros Hall. unfold alive_at.
  destruct (index (backends lb) p) as [b|] eqn:Hb; [|done].
  apply Hall. apply index_Ret in Hb as [_ Hb]. by eapply list_elem_of_lookup_2.
Qed.

Lemma NextBackend_all_alive lb :
  slice_fits lb -> cursor_valid lb -> all_alive lb ->
  NextBackend lb = Ret (Some ((current lb + 1) mod len lb),
                        set_current lb ((current lb + 1) mod len lb)).
Proof.
  intros Hfits Hcur Hall.
  destruct (NextBackend_first_alive lb Hfits Hcur)
    as [[_ Hdead]|(j & Hj & Hs & _ & Hdead)].
  - specialize (Hdead 0). rewrite all_alive_alive_at in Hdead; [|done|].
    + discriminate Hdead; unfold cursor_valid in Hcur; lia.
    + apply Z.mod_pos_bound. unfold cursor_valid in Hcur. lia.
  - destruct (Z.eq_dec j 0) as [->|Hne].
    + by rewrite Z.add_0_r in Hs.
    + specialize (Hdead 0). rewrite all_alive_alive_at in Hdead; [|done|].
      * discriminate Hdead. lia.
      * apply Z.mod_pos_bound. unfold cursor_valid in Hcur. lia.
Qed.

Lemma NextBackend_all_dead lb :
  slice_fits lb -> cursor_valid lb -> all_dead lb -> NextBackend lb = Ret (None, lb).
Proof.
  intros Hfits Hcur Hall.
  destruct (NextBackend_first_alive lb Hfits Hcur)
    as [[Hs _]|(j & _ & _ & Hal & _)]; [done|].
  by rewrite all_dead_alive_at in Hal.
Qed.

(** What a successful call preserves. *)
Lemma NextBackend_preserves lb p lb' :
  NextBackend lb = Ret (p, lb') ->
  backends lb' = backends lb /\
  (slice_fits lb -> slice_fits lb') /\
  (cursor_valid lb -> cursor_valid lb').
Proof.
  intros H. pose proof (NextBackend_backends _ _ _ H) as Hbs.
  split; [done|]. split.
  - unfold slice_fits, len. by rewrite Hbs.
  - destruct p as [p|].
    + apply NextBackend_Some in H as [-> Hal]. intros _.
      apply alive_at_true in Hal as (b & Hp & Hb & _).
      apply lookup_lt_Some in Hb. unfold cursor_valid, len. simpl. lia.
    + by apply NextBackend_None in H as ->.
Qed.

Lemma NextBackend_returns lb :
  slice_fits lb -> cursor_valid lb -> exists p lb', NextBackend lb = Ret (p, lb').
Proof.
  intros Hfits Hcur.
  destruct (NextBackend_first_alive lb Hfits Hcur)
    as [[Hs _]|(j & _ & Hs & _)]; eauto.
Qed.

Lemma run_cons o ops lb :
  run (o :: ops) lb =
  match step o lb with
  | Panic p => ([], Panic p)
  | Ret (out, lb') => (out ++ (run ops lb').1, (run ops lb').2)
  end.
Proof.
  cbn [run]. destruct (step o lb) as [[out lb']|]; [|done].
  by destruct (run ops lb').
Qed.

Lemma NextBackend_times_S M lb :
  NextBackend_times (S M) lb =
  match NextBackend lb with
  | Panic p => ([], Panic p)
  | Ret (p, lb') => (p :: (NextBackend_times M lb').1, (NextBackend_times M lb').2)
  end.
Proof.
  unfold NextBackend_times. cbn [replicate]. rewrite run_cons. cbn [step].
  destruct (NextBackend lb) as [[p lb']|]; done.
Qed.

Lemma NextBackend_times_valid M lb :
  slice_fits lb -> cursor_valid lb ->
  exists lb', (NextBackend_times M lb).2 = Ret lb' /\
              backends lb' = backends lb /\ slice_fits lb' /\ cursor_valid lb' /\
              length (NextBackend_times M lb).1 = M.
Proof.
  revert lb. induction M as [|M IH]; intros lb Hfits Hcur.
  - exists lb. by split_and!.
  - destruct (NextBackend_returns lb Hfits Hcur) as (p & lb1 & H1).
    destruct (NextBackend_preserves _ _ _ H1) as (Hbs & Hf & Hc).
    destruct (IH lb1 (Hf Hfits) (Hc Hcur)) as (lb' & Hrun & Hbs' & Hf' & Hc' & Hlen).
    exists lb'. rewrite NextBackend_times_S, H1. cbn [fst snd].
    split_and!; [done|congruence|done|done|]. simpl. by rewrite Hlen.
Qed.

Lemma rotation_S c N M :
  rotation c N (S M) = Some ((c + 1) mod N) :: rotation ((c + 1) mod N) N M.
Proof.
  unfold rotation. cbn [seq map]. f_equal.
  - by rewrite Z.add_0_r.
  - rewrite <- seq_shift, map_map. apply map_ext. intros k. f_equal.
    rewrite <- (Z.add_assoc ((c + 1) mod N)), Zplus_mod_idemp_l. f_equal. lia.
Qed.

Lemma NextBackend_times_all_alive M lb :
  slice_fits lb -> cursor_valid lb -> all_alive lb ->
  (NextBackend_times M lb).1 = rotation (current lb) (len lb) M.
Proof.
  revert lb. induction M as [|M IH]; intros lb Hfits Hcur Hall; [done|].
  rewrite NextBackend_times_S, rotation_S.
  pose proof (NextBackend_all_alive lb Hfits Hcur Hall) as H1. rewrite H1.
  destruct (NextBackend_preserves _ _ _ H1) as (Hbs & Hf & Hc).
  cbn [fst]. f_equal. rewrite IH; [done|auto|auto|].
  intros b Hb. apply Hall. by rewrite <- Hbs.
Qed.

(** ** Counting the visits of a rotation *)

Lemma div_succ (x N : Z) :
  0 < N -> (x + 1) / N = x / N + (if (x + 1) mod N =? 0 then 1 else 0).
Proof.
  intros HN. destruct (Z.eqb_spec ((x + 1) mod N) 0) as [H0|H0];
    Z.div_mod_to_equations; nia.
Qed.

Lemma rotation_hits (c N p m : Z) :
  0 < N -> 0 <= p < N ->
  ((c + 1 + m) mod N =? p) = ((m + N - 1 - (p - (c + 1)) mod N + 1) mod N =? 0).
Proof.
  intros HN Hp.
  replace (m + N - 1 - (p - (c + 1)) mod N + 1) with (m - (p - (c + 1)) mod N + 1 * N) by lia.
  rewrite Z.mod_add by lia.
  rewrite Zminus_mod_idemp_r.
  replace (m - (p - (c + 1))) with (c + 1 + m - p) by lia.
  destruct (Z.eqb_spec ((c + 1 + m) mod N) p) as [He|Hne].
  - symmetry. apply Z.eqb_eq.
    rewrite Zminus_mod, He, (Z.mod_small p N) by lia.
    by rewrite Z.sub_diag, Z.mod_0_l by lia.
  - symmetry. apply Z.eqb_neq. intros H0. apply Hne.
    rewrite <- (Z.mod_small p N) by lia.
    replace (c + 1 + m) with ((c + 1 + m - p) + p) by lia.
    by rewrite Zplus_mod, H0, Z.add_0_l, Z.mod_mod by lia.
Qed.

Lemma visits_rotation (c N p : Z) (M : nat) :
  0 < N -> 0 <= p < N ->
  visits p (rotation c N M) = (Z.of_nat M + N - 1 - (p - (c + 1)) mod N) / N.
Proof.
  intros HN Hp. unfold visits, rotation.
  pose proof (Z.mod_pos_bound (p - (c + 1)) N HN) as Hd.
  induction M as [|M IH].
  - simpl. symmetry. apply Z.div_small. lia.
  - rewrite seq_S, map_app, List.filter_app, length_app, Nat2Z.inj_add, IH.
    replace (Z.of_nat (S M) + N - 1 - (p - (c + 1)) mod N)
      with (Z.of_nat M + N - 1 - (p - (c + 1)) mod N + 1) by lia.
    rewrite div_succ by done. f_equal.
    cbn [map List.filter returned Nat.add].
    rewrite rotation_hits by done.
    by destruct (_ =? 0).
Qed.

Lemma visits_rotation_fair (c N p : Z) (M : nat) :
  0 < N -> 0 <= p < N ->
  visits p (rotation c N M) = Z.of_nat M / N \/
  visits p (rotation c N M) = (Z.of_nat M + N - 1) / N.
Proof.
  intros HN Hp. rewrite visits_rotation by done.
  pose proof (Z.mod_pos_bound (p - (c + 1)) N HN) as Hd.
  set (d := (p - (c + 1)) mod N) in *.
  assert (Hlo : Z.of_nat M / N <= (Z.of_nat M + N - 1 - d) / N)
    by (apply Z.div_le_mono; lia).
  assert (Hhi : (Z.of_nat M + N - 1 - d) / N <= (Z.of_nat M + N - 1) / N)
    by (apply Z.div_le_mono; lia).
  assert (Hgap : (Z.of_nat M + N - 1) / N <= Z.of_nat M / N + 1).
  { replace (Z.of_nat M / N + 1) with ((Z.of_nat M + 1 * N) / N)
      by (rewrite Z.div_add by lia; lia).
    apply Z.div_le_mono; lia. }
  lia.
Qed.

(** ** Runs *)

Lemma run_app ops1 ops2 lb :
  run (ops1 ++ ops2) lb =
  match (run ops1 lb).2 with
  | Ret lb1 => ((run ops1 lb).1 ++ (run ops2 lb1).1, (run ops2 lb1).2)
  | Panic p => ((run ops1 lb).1, Panic p)
  end.
Proof.
  revert lb. induction ops1 as [|o ops1 IH]; intros lb.
  - simpl. by destruct (run ops2 lb).
  - rewrite <- app_comm_cons, !run_cons.
    destruct (step o lb) as [[out lb']|]; [|done].
    rewrite IH. cbn [fst snd].
    destruct (run ops1 lb').2; [|done]. cbn [fst snd]. by rewrite app_assoc.
Qed.

Lemma NextBackend_times_snoc M lb :
  NextBackend_times (S M) lb =
  match (NextBackend_times M lb).2 with
  | Ret lbM =>
      match NextBackend lbM with
      | Ret (p, lb') => ((NextBackend_times M lb).1 ++ [p], Ret lb')
      | Panic e => ((NextBackend_times M lb).1, Panic e)
      end
  | Panic e => ((NextBackend_times M lb).1, Panic e)
  end.
Proof.
  unfold NextBackend_times.
  replace (replicate (S M) OpNextBackend)
    with (replicate M OpNextBackend ++ [OpNextBackend]).
  - rewrite run_app. destruct (run (replicate M OpNextBackend) lb).2 as [lbM|]; [|done].
    rewrite run_cons. cbn [step run fst snd].
    destruct (NextBackend lbM) as [[p lb']|]; cbn; rewrite ?app_nil_r; done.
  - change [OpNextBackend] with (replicate 1 OpNextBackend).
    rewrite <- replicate_add. f_equal. lia.
Qed.

Lemma all_alive_forallb lb : forallb Alive (backends lb) = true -> all_alive lb.
Proof.
  intros H b Hb. rewrite forallb_forall in H. apply H. by apply list_elem_of_In.
Qed.

Lemma all_dead_forallb lb :
  forallb (fun b => negb (Alive b)) (backends lb) = true -> all_dead lb.
Proof.
  intros H b Hb. rewrite forallb_forall in H.
  apply negb_true_iff, H. by apply list_elem_of_In.
Qed.

Lemma flag_stays_dead_forallb k ops :
  forallb (fun o => negb (revives k o)) ops = true -> flag_stays_dead k ops.
Proof.
  intros H o Ho. rewrite forallb_forall in H.
  apply negb_true_iff, H. by apply list_elem_of_In.
Qed.

(** ** Reachable states *)

Lemma step_preserves o lb out lb' :
  step o lb = Ret (out, lb') ->
  len lb' = len lb /\
  (slice_fits lb -> slice_fits lb') /\
  (cursor_valid lb -> cursor_valid lb').
Proof.
  destruct o as [|k alive]; cbn [step]; intros H.
  - apply bind_inv in H as ([p lb1] & H1 & [= _ <-]).
    destruct (NextBackend_preserves _ _ _ H1) as (Hbs & Hf & Hc).
    split; [|done]. unfold len. by rewrite Hbs.
  - apply bind_inv in H as (b & _ & [= _ <-]).
    unfold slice_fits, cursor_valid, len. cbn [backends current].
    by rewrite length_insert.
Qed.

Lemma NextBackend_empty lb : len lb = 0 -> NextBackend lb = Panic DivideByZero.
Proof. intros H. unfold NextBackend, int_rem. by rewrite H. Qed.

Lemma reachable_valid lb :
  reachable lb -> slice_fits lb /\ (1 <= len lb -> cursor_valid lb).
Proof.
  induction 1 as [bs Hfits|lb o out lb' _ [IHf IHc] Hstep].
  - split; [done|]. unfold cursor_valid. simpl. lia.
  - destruct (step_preserves _ _ _ _ Hstep) as (Hlen & Hf & Hc).
    split; [auto|]. rewrite Hlen. auto.
Qed.

(** * The properties of the specification *)

(** C1.  In a state with [N >= 1] backends, all alive, every call of
    [NextBackend] returns the backend at index [(previous cursor + 1) mod N] and moves
    the cursor there; so [M] consecutive calls return the indices in
    circular order starting immediately after the cursor, and visit each
    backend [floor(M/N)] or [ceil(M/N)] times. *)
Theorem round_robin_all_alive (lb : LoadBalancer) (M : nat) :
  reachable lb -> 1 <= len lb -> all_alive lb ->
  (forall k : nat, exists lbk,
      (NextBackend_times k lb).2 = Ret lbk /\
      NextBackend lbk
        = Ret (Some ((current lbk + 1) mod len lb),
               set_current lbk ((current lbk + 1) mod len lb)) /\
      NextBackend_times (S k) lb
        = ((NextBackend_times k lb).1 ++ [Some ((current lbk + 1) mod len lb)],
           Ret (set_current lbk ((current lbk + 1) mod len lb)))) /\
  (NextBackend_times M lb).1 = rotation (current lb) (len lb) M /\
  (forall p, 0 <= p < len lb ->
     visits p (NextBackend_times M lb).1 = Z.of_nat M / len lb \/
     visits p (NextBackend_times M lb).1 = (Z.of_nat M + len lb - 1) / len lb).
Proof.
  intros Hreach HN Hall.
  destruct (reachable_valid lb Hreach) as [Hfits Hcur]. specialize (Hcur HN).
  split_and!.
  - intros k.
    destruct (NextBackend_times_valid k lb Hfits Hcur) as (lbk & Hk & Hbs & Hf & Hc & _).
    assert (Hlen : len lbk = len lb) by (unfold len; by rewrite Hbs).
    assert (Hallk : all_alive lbk) by (intros b Hb; apply Hall; by rewrite <- Hbs).
    pose proof (NextBackend_all_alive lbk Hf Hc Hallk) as Hcall.
    rewrite Hlen in Hcall.
    exists lbk. split_and!; [done|done|].
    by rewrite NextBackend_times_snoc, Hk, Hcall.
  - by apply NextBackend_times_all_alive.
  - intros p Hp. rewrite NextBackend_times_all_alive by done.
    apply visits_rotation_fair; lia.
Qed.

Lemma round_robin_all_alive_witness :
  (NextBackend_times 7 three_alive).1 = rotation (current three_alive) (len three_alive) 7.
Proof.
  apply (round_robin_all_alive three_alive 7).
  - apply reachable_registered. vm_compute. discriminate.
  - vm_compute. discriminate.
  - apply all_alive_forallb. reflexivity.
Defined.

(** C2.  [NextBackend] never returns a backend whose flag is false when it
    checks it: while the flag of backend [k] is false and is not set to
    true, no call returns [k], however many calls are made and however
    the other flags change in between. *)
Theorem dead_backend_never_returned (lb : LoadBalancer) (k : nat) (b : Backend)
    (ops : list op) :
  backends lb !! k = Some b -> Alive b = false -> flag_stays_dead k ops ->
  (Some (Z.of_nat k) ∉ (run ops lb).1) /\
  (forall M, Some (Z.of_nat k) ∉ (NextBackend_times M lb).1) /\
  (forall lb', NextBackend lb <> Ret (Some (Z.of_nat k), lb')).
Proof.
  intros Hk Hdead Hops.
  assert (Hcall : forall lb0 b0 lb', backends lb0 !! k = Some b0 -> Alive b0 = false ->
                    NextBackend lb0 <> Ret (Some (Z.of_nat k), lb')).
  { intros lb0 b0 lb' Hk0 Hd0 H. apply NextBackend_Some in H as [_ Hal].
    apply alive_at_true in Hal as (b1 & _ & Hb1 & Hal).
    rewrite Nat2Z.id in Hb1. congruence. }
  assert (Hrun : forall ops lb0 b0, backends lb0 !! k = Some b0 -> Alive b0 = false ->
                   flag_stays_dead k ops -> Some (Z.of_nat k) ∉ (run ops lb0).1).
  { clear dependent lb. clear dependent b. clear Hops.
    intros ops'. induction ops' as [|o ops' IH]; intros lb b Hk Hdead Hops.
    - simpl. apply not_elem_of_nil.
    - rewrite run_cons.
      assert (Hops' : flag_stays_dead k ops')
        by (intros o' Ho'; apply Hops; by right).
      assert (Ho : revives k o = false) by (apply Hops; left).
      destruct (step o lb) as [[out lb']|] eqn:Hstep; [|apply not_elem_of_nil].
      cbn [fst]. rewrite elem_of_app. intros [Hin|Hin].
      + destruct o as [|j alive]; cbn [step] in Hstep.
        * apply bind_inv in Hstep as ([p lb1] & H1 & [= <- <-]).
          apply list_elem_of_singleton in Hin as <-.
          by eapply Hcall.
        * apply bind_inv in Hstep as (bj & _ & [= <- _]).
          by apply not_elem_of_nil in Hin.
      + destruct o as [|j alive]; cbn [step] in Hstep.
        * apply bind_inv in Hstep as ([p lb1] & H1 & [= _ <-]).
          apply NextBackend_backends in H1.
          eapply IH; [by rewrite H1| |done|done]. done.
        * apply bind_inv in Hstep as (bj & Hbj & [= _ <-]).
          apply index_Ret in Hbj as [_ Hbj]. rewrite Nat2Z.id in Hbj.
          destruct (decide (j = k)) as [->|Hne].
          -- assert (alive = false) as ->.
             { destruct alive; [|done]. simpl in Ho. by rewrite Nat.eqb_refl in Ho. }
             eapply (IH _ (SetAlive bj false)); [|done|done|done].
             cbn [backends]. apply list_lookup_insert_eq. by eapply lookup_lt_Some.
          -- eapply (IH _ b); [|done|done|done].
             cbn [backends]. by rewrite list_lookup_insert_ne.
  }
  split_and!.
  - by eapply Hrun.
  - intros M. eapply Hrun; [done|done|].
    intros o Ho. apply elem_of_replicate in Ho as [-> _]. done.
  - intros lb'. by eapply Hcall.
Qed.

Lemma dead_backend_never_returned_witness :
  Some 1 ∉ (run [OpNextBackend; OpSetAlive 0 false; OpNextBackend; OpSetAlive 0 true;
                 OpNextBackend; OpSetAlive 1 false; OpNextBackend] middle_dead).1.
Proof.
  apply (dead_backend_never_returned middle_dead 1 (sample_backend "b:2" false)).
  - reflexivity.
  - reflexivity.
  - apply flag_stays_dead_forallb. reflexivity.
Defined.

Lemma NextBackend_times_all_dead M lb :
  slice_fits lb -> cursor_valid lb -> all_dead lb ->
  NextBackend_times M lb = (replicate M None, Ret lb).
Proof.
  intros Hfits Hcur Hall. induction M as [|M IH]; [done|].
  by rewrite NextBackend_times_S, NextBackend_all_dead, IH.
Qed.

Lemma three_dead_reachable : reachable three_dead.
Proof.
  apply (reachable_step
           {| backends := [sample_backend "a:1" false; sample_backend "b:2" true;
                           sample_backend "c:3" false];
              current := 1 |} (OpSetAlive 1 false) []); [|reflexivity].
  apply (reachable_step
           {| backends := [sample_backend "a:1" false; sample_backend "b:2" true;
                           sample_backend "c:3" false];
              current := 0 |} OpNextBackend [Some 1]); [|reflexivity].
  apply reachable_registered. vm_compute. discriminate.
Qed.

(** C3, as stated, fails on a balancer without backends: all of its
    backends are dead, and the call panics on the remainder by zero
    instead of returning none. *)
Lemma all_dead_empty_panics :
  all_dead new_LoadBalancer /\
  reachable new_LoadBalancer /\
  NextBackend new_LoadBalancer = Panic DivideByZero /\
  ~ (forall lb, all_dead lb -> NextBackend lb = Ret (None, lb)).
Proof.
  assert (Hdead : all_dead new_LoadBalancer)
    by (intros b Hb; by apply not_elem_of_nil in Hb).
  split_and!; [done| |done|].
  - apply reachable_registered. vm_compute. discriminate.
  - intros H. specialize (H new_LoadBalancer Hdead). discriminate H.
Qed.

(** C3, amended.  In every state with at least one registered backend in
    which every backend's flag is false, every call of [NextBackend]
    returns none and leaves the balancer, its cursor included, as it
    was. *)
Theorem all_dead_returns_none (lb : LoadBalancer) (M : nat) :
  reachable lb -> 1 <= len lb -> all_dead lb ->
  NextBackend lb = Ret (None, lb) /\
  NextBackend_times M lb = (replicate M None, Ret lb).
Proof.
  intros Hreach HN Hall. destruct (reachable_valid lb Hreach) as [Hfits Hcur].
  split.
  - apply NextBackend_all_dead; auto.
  - apply NextBackend_times_all_dead; auto.
Qed.

Lemma all_dead_returns_none_witness :
  NextBackend three_dead = Ret (None, three_dead) /\
  NextBackend_times 4 three_dead = (replicate 4 None, Ret three_dead).
Proof.
  apply (all_dead_returns_none three_dead 4).
  - exact three_dead_reachable.
  - vm_compute. discriminate.
  - apply all_dead_forallb. reflexivity.
Defined.

(** C4.  With [N >= 1] backends and [0 <= cursor < N], a call of
    [NextBackend] returns, with a backend or with none, and the cursor
    still satisfies [0 <= cursor < N]; so it does after any number of
    calls. *)
Theorem cursor_stays_valid (lb : LoadBalancer) :
  1 <= len lb -> cursor_valid lb -> slice_fits lb ->
  (exists p lb', NextBackend lb = Ret (p, lb') /\
                 len lb' = len lb /\ 0 <= current lb' < len lb') /\
  (forall M, exists lbM, (NextBackend_times M lb).2 = Ret lbM /\
                         len lbM = len lb /\ 0 <= current lbM < len lbM).
Proof.
  intros HN Hcur Hfits. split.
  - destruct (NextBackend_returns lb Hfits Hcur) as (p & lb' & H).
    destruct (NextBackend_preserves _ _ _ H) as (Hbs & _ & Hc).
    exists p, lb'. split_and!; [done| |by apply Hc|by apply Hc].
    unfold len. by rewrite Hbs.
  - intros M.
    destruct (NextBackend_times_valid M lb Hfits Hcur) as (lbM & HM & Hbs & _ & Hc & _).
    exists lbM. split_and!; [done| |by apply Hc|by apply Hc].
    unfold len. by rewrite Hbs.
Qed.

Lemma cursor_stays_valid_witness :
  exists lbM, (NextBackend_times 5 middle_dead).2 = Ret lbM /\
              len lbM = len middle_dead /\ 0 <= current lbM < len lbM.
Proof.
  apply (cursor_stays_valid middle_dead).
  - vm_compute. discriminate.
  - split; vm_compute; [discriminate | reflexivity].
  - vm_compute. discriminate.
Defined.

(** C9.  [NextBackend] needs at least one registered backend.  On no
    backends the remainder [(cursor + 1) % 0] panics, and the call does
    not return none.  With [N >= 1] the call returns: the start index and
    the index of every iteration of the scan are computed without a panic
    and lie within the slice. *)
Theorem NextBackend_needs_a_backend (lb : LoadBalancer) :
  reachable lb ->
  if len lb =? 0 then NextBackend lb = Panic DivideByZero
  else (exists p lb', NextBackend lb = Ret (p, lb')) /\
       (exists next, int_rem (int_add (current lb) 1) (len lb) = Ret next /\
          forall i, 0 <= i < len lb ->
            exists idx b, int_rem (int_add next i) (len lb) = Ret idx /\
                          0 <= idx < len lb /\
                          index (backends lb) idx = Ret b).
Proof.
  intros Hreach. destruct (Z.eqb_spec (len lb) 0) as [H0|H0].
  - by apply NextBackend_empty.
  - assert (HN : 1 <= len lb) by (unfold len in *; lia).
    destruct (reachable_valid lb Hreach) as [Hfits Hcur].
    specialize (Hcur HN).
    split; [by apply NextBackend_returns|].
    assert (Hf : 8 * len lb <= MaxInt) by exact Hfits.
    assert (Hc : 0 <= current lb < len lb) by exact Hcur.
    unfold MaxInt in Hf.
    exists ((current lb + 1) mod len lb).
    rewrite int_add_small by (unfold in_range, MinInt, MaxInt; lia).
    split; [apply int_rem_nonneg; lia|].
    intros i Hi.
    assert (Hnext : 0 <= (current lb + 1) mod len lb < len lb)
      by (apply Z.mod_pos_bound; lia).
    assert (Hidx : 0 <= ((current lb + 1) mod len lb + i) mod len lb < len lb)
      by (apply Z.mod_pos_bound; lia).
    destruct (index_in_range (backends lb) _ Hidx) as [b Hb].
    exists (((current lb + 1) mod len lb + i) mod len lb), b.
    rewrite int_add_small by (unfold in_range, MinInt, MaxInt; lia).
    split_and!; [apply int_rem_nonneg; lia|lia|lia|done].
Qed.

Lemma NextBackend_needs_a_backend_witness :
  NextBackend new_LoadBalancer = Panic DivideByZero /\
  exists p lb', NextBackend three_dead = Ret (p, lb').
Proof.
  split.
  - apply (NextBackend_needs_a_backend new_LoadBalancer).
    apply reachable_registered. vm_compute. discriminate.
  - apply (NextBackend_needs_a_backend three_dead). exact three_dead_reachable.
Defined.

(** C5.  [ServeHTTP] makes one call of [NextBackend]: it panics as that
    call does, and otherwise leaves the balancer in the state that call
    leaves.  On none it answers 503 and forwards nothing; on a backend it
    runs the reverse proxy of exactly that backend once and what the proxy
    writes, the upstream response or what its error handler answers, is
    what the caller gets. *)
Theorem dispatch_once (up : Upstream) (lb : LoadBalancer) (w : ResponseWriter) (r : Request) :
  match NextBackend lb with
  | Panic e => ServeHTTP up lb w r = Panic e
  | Ret (None, lb') =>
      ServeHTTP up lb w r
        = Ret (w ++ [WriteHeader 503; WriteBody ("service unavailable" ++ newline)%string],
               lb', []) /\
      lb' = lb
  | Ret (Some p, lb') =>
      exists b, index (backends lb) p = Ret b /\
        Alive b = true /\
        lb' = set_current lb p /\
        ServeHTTP up lb w r
          = Ret ((ReverseProxy_ServeHTTP up (ReverseProxy b) w r).1, lb',
                 (ReverseProxy_ServeHTTP up (ReverseProxy b) w r).2) /\
        (exists evs, (ReverseProxy_ServeHTTP up (ReverseProxy b) w r).2
                     = EvForward (Host (Target (ReverseProxy b))) r :: evs) /\
        (forall ws, up (Host (Target (ReverseProxy b))) r = inr ws ->
           ServeHTTP up lb w r
             = Ret (w ++ ws, lb', [EvForward (Host (Target (ReverseProxy b))) r])) /\
        (forall err, up (Host (Target (ReverseProxy b))) r = inl err ->
           ServeHTTP up lb w r
             = Ret ((ErrorHandler (ReverseProxy b) w r err).1, lb',
                    EvForward (Host (Target (ReverseProxy b))) r
                      :: (ErrorHandler (ReverseProxy b) w r err).2))
  end.
Proof.
  unfold ServeHTTP.
  destruct (NextBackend lb) as [[[p|] lb']|e] eqn:Hnext; [| |done].
  - destruct (NextBackend_Some _ _ _ Hnext) as [-> Hal].
    apply alive_at_true in Hal as (b & Hp & Hb & Hal).
    assert (Hidx : index (backends lb) p = Ret b) by (by apply index_Ret).
    exists b. rewrite bind_Ret. cbn [backends set_current]. rewrite Hidx, bind_Ret.
    split_and!; [done|done|done| | | |].
    + by destruct (ReverseProxy_ServeHTTP up (ReverseProxy b) w r).
    + unfold ReverseProxy_ServeHTTP.
      destruct (up _ r) as [err|ws]; [|by eexists].
      destruct (ErrorHandler _ w r err). by eexists.
    + intros ws Hws. unfold ReverseProxy_ServeHTTP. by rewrite Hws.
    + intros err Herr. unfold ReverseProxy_ServeHTTP. rewrite Herr.
      by destruct (ErrorHandler _ w r err).
  - apply NextBackend_None in Hnext as ->. by rewrite bind_Ret.
Qed.

(** C8.  [SetAlive(true)] twice in a row is [SetAlive(true)] once:
    [IsAlive] answers true, and the address and the forwarding handle are
    those the backend had; so it is for a backend in its slot of the
    balancer. *)
Theorem SetAlive_true_idempotent (b : Backend) :
  SetAlive (SetAlive b true) true = SetAlive b true /\
  IsAlive (SetAlive (SetAlive b true) true) = true /\
  URL (SetAlive (SetAlive b true) true) = URL b /\
  ReverseProxy (SetAlive (SetAlive b true) true) = ReverseProxy b /\
  (forall lb k, (run [OpSetAlive k true; OpSetAlive k true] lb).2
                = (run [OpSetAlive k true] lb).2).
Proof.
  split_and!; try done.
  intros lb k. rewrite !run_cons. cbn [step run fst snd].
  destruct (index (backends lb) (Z.of_nat k)) as [bk|e] eqn:Hk; [|done].
  rewrite !bind_Ret. cbn [backends current fst snd].
  apply index_Ret in Hk as [_ Hk]. rewrite Nat2Z.id in Hk.
  assert (Hlt : (k < length (backends lb))%nat) by (by eapply lookup_lt_Some).
  assert (Hk' : index (<[k:=SetAlive bk true]> (backends lb)) (Z.of_nat k)
                = Ret (SetAlive bk true)).
  { apply index_Ret. split; [lia|]. rewrite Nat2Z.id. by apply list_lookup_insert_eq. }
  rewrite Hk', bind_Ret. cbn [fst snd backends current].
  by rewrite list_insert_insert_eq.
Qed.

(** ** Health checks *)

Lemma isBackendAlive_eq net clock u :
  exists prints,
    isBackendAlive net clock u
      = (dial_ok net clock (Host u), clock + dial_elapsed net clock (Host u),
         EvDial (Host u) clock (dial_ok net clock (Host u)) :: prints) /\
    (prints = [] \/ exists msg, prints = [EvPrint msg]).
Proof.
  unfold isBackendAlive, dial_ok, dial_elapsed.
  destruct (net_DialTimeout net clock (Host u) (2 * Second)) as [[e|] elapsed];
    cbn [fst snd]; eexists; split; eauto.
Qed.

Lemma HealthCheck_range_cons net clock b rest :
  exists prints,
    HealthCheck_range net clock (b :: rest)
      = (SetAlive b (dial_ok net clock (Host (URL b)))
           :: (HealthCheck_range net (clock + dial_elapsed net clock (Host (URL b))) rest).1.1,
         (HealthCheck_range net (clock + dial_elapsed net clock (Host (URL b))) rest).1.2,
         EvDial (Host (URL b)) clock (dial_ok net clock (Host (URL b))) :: prints ++
           (HealthCheck_range net (clock + dial_elapsed net clock (Host (URL b))) rest).2) /\
    dials prints = [] /\ forwards prints = [] /\
    (forall evs, dials_by_tick (prints ++ evs) = dials_by_tick evs).
Proof.
  cbn [HealthCheck_range].
  destruct (isBackendAlive_eq net clock (URL b)) as (prints & -> & Hprints).
  destruct (HealthCheck_range net _ rest) as [[rest' clock2] evs2]. cbn [fst snd].
  destruct Hprints as [->|[msg ->]].
  - eexists [EvPrint _]. by split_and!.
  - eexists [EvPrint _; EvPrint _]. by split_and!.
Qed.

Lemma HealthCheck_range_length net clock bs :
  length (HealthCheck_range net clock bs).1.1 = length bs /\
  length (dials (HealthCheck_range net clock bs).2) = length bs /\
  forwards (HealthCheck_range net clock bs).2 = [].
Proof.
  revert clock. induction bs as [|b rest IH]; intros clock; [done|].
  destruct (HealthCheck_range_cons net clock b rest) as (prints & -> & Hd & Hf & _).
  cbn [fst snd length dials forwards].
  destruct (IH (clock + dial_elapsed net clock (Host (URL b)))) as (IH1 & IH2 & IH3).
  split_and!; [by rewrite IH1| |].
  - f_equal. clear Hf. induction prints as [|[] prints IHp]; simpl in *; try done; auto.
  - clear Hd. induction prints as [|[] prints IHp]; simpl in *; try done; auto.
Qed.

Lemma dials_app_prints prints evs : dials prints = [] -> dials (prints ++ evs) = dials evs.
Proof. induction prints as [|[] prints IH]; simpl; try done; auto. Qed.

(** The [j]-th backend is probed at an instant of its own and gets the
    outcome of that probe; the clock of the next probe starts where this
    one returns. *)
Lemma HealthCheck_range_probe net bs :
  forall clock j b, bs !! j = Some b ->
  exists start,
    dials (HealthCheck_range net clock bs).2 !! j
      = Some (Host (URL b), start, dial_ok net start (Host (URL b))) /\
    (HealthCheck_range net clock bs).1.1 !! j
      = Some (SetAlive b (dial_ok net start (Host (URL b)))) /\
    (j = O -> start = clock) /\
    (forall b', bs !! S j = Some b' ->
       exists st, dials (HealthCheck_range net clock bs).2 !! S j
                  = Some (Host (URL b'), start + dial_elapsed net start (Host (URL b)), st)).
Proof.
  induction bs as [|b0 rest IH]; intros clock j b Hj; [done|].
  destruct (HealthCheck_range_cons net clock b0 rest) as (prints & -> & Hd & _ & _).
  cbn [fst snd dials]. rewrite dials_app_prints by done.
  destruct j as [|j].
  - injection Hj as ->. exists clock. split_and!; [done|done|done|].
    intros b' Hb'. cbn in Hb'.
    destruct (IH (clock + dial_elapsed net clock (Host (URL b))) O b' Hb')
      as (start & Hs & _ & H0 & _).
    rewrite (H0 eq_refl) in Hs. eexists. exact Hs.
  - cbn in Hj.
    destruct (IH (clock + dial_elapsed net clock (Host (URL b0))) j b Hj)
      as (start & Hs & Hb & _ & Hnext).
    exists start. by split_and!.
Qed.

Lemma HealthCheck_eq net clock lb :
  HealthCheck net clock lb
    = ({| backends := (HealthCheck_range net clock (backends lb)).1.1;
          current := current lb |},
       (HealthCheck_range net clock (backends lb)).1.2,
       (HealthCheck_range net clock (backends lb)).2).
Proof.
  unfold HealthCheck. by destruct (HealthCheck_range net clock (backends lb)) as [[? ?] ?].
Qed.

Lemma HealthCheck_range_by_tick net bs clock evs :
  dials_by_tick ((HealthCheck_range net clock bs).2 ++ evs)
    = ((length bs + (dials_by_tick evs).1)%nat, (dials_by_tick evs).2).
Proof.
  revert clock. induction bs as [|b rest IH]; intros clock.
  - simpl. by destruct (dials_by_tick evs).
  - destruct (HealthCheck_range_cons net clock b rest) as (prints & -> & _ & _ & Hp).
    cbn [snd]. rewrite <- app_comm_cons. cbn [dials_by_tick].
    rewrite <- app_assoc, Hp, IH. done.
Qed.

Lemma HealthCheck_on_ticks_by_tick net ch clock lb :
  dials_by_tick (HealthCheck_on_ticks net ch clock lb).2
    = (O, replicate (length ch) (length (backends lb))).
Proof.
  revert clock lb. induction ch as [|t ch IH]; intros clock lb; [done|].
  cbn [HealthCheck_on_ticks]. rewrite HealthCheck_eq.
  destruct (HealthCheck_on_ticks net ch _ _) as [[lb2 clock2] evs2] eqn:Hrest.
  cbn [snd dials_by_tick].
  rewrite HealthCheck_range_by_tick.
  change evs2 with (lb2, clock2, evs2).2. rewrite <- Hrest, IH. cbn [fst snd backends].
  destruct (HealthCheck_range_length net (Z.max clock t) (backends lb)) as (-> & _ & _).
  by rewrite Nat.add_0_r.
Qed.

(** C6, as stated, fails: [HealthCheckPeriodically] begins with a receive
    on the ticker.  Until the first tick it has probed nothing, and with
    one tick it has run one health check, after that tick; with an
    interval of zero it never runs one.  The check that runs at once is
    the one [main] calls before it starts the loop. *)
Lemma periodic_check_waits_first :
  HealthCheckPeriodically net_up (10 * Second) [] 0 three_alive = (three_alive, 0, []) /\
  dials_by_tick (HealthCheckPeriodically net_up (10 * Second) [10 * Second] 0 three_alive).2
    = (O, [3%nat]) /\
  ~ immediately_then_per_tick
      (HealthCheckPeriodically net_up (10 * Second) [10 * Second] 0 three_alive).2 3 1 /\
  HealthCheckPeriodically net_up 0 [10 * Second; 20 * Second] 0 three_alive
    = (three_alive, 0, []).
Proof.
  split_and!; [reflexivity|reflexivity| |reflexivity].
  unfold immediately_then_per_tick. discriminate.
Qed.

(** C6, amended.  [main] runs [HealthCheck] once immediately and then
    starts [HealthCheckPeriodically]; [HealthCheckPeriodically(interval)]
    with a positive interval first waits for a tick and runs [HealthCheck]
    once, on every backend, after each tick it receives, for as long as
    ticks come. *)
Theorem health_check_schedule (net : Net) (interval : Z) (deliveries : list Z)
    (clock : Z) (lb : LoadBalancer) :
  0 < interval ->
  HealthCheckPeriodically net interval [] clock lb = (lb, clock, []) /\
  dials_by_tick (HealthCheckPeriodically net interval deliveries clock lb).2
    = (O, replicate (length deliveries) (length (backends lb))) /\
  immediately_then_per_tick (main_health net deliveries clock lb).2
    (length (backends lb)) (length deliveries).
Proof.
  intros Hpos.
  assert (Htick : forall d, 0 < d -> time_Tick d deliveries = deliveries).
  { intros d Hd. unfold time_Tick. destruct (Z.leb_spec d 0); [lia|done]. }
  split_and!.
  - unfold HealthCheckPeriodically, time_Tick. by destruct (interval <=? 0).
  - unfold HealthCheckPeriodically. rewrite Htick by done.
    apply HealthCheck_on_ticks_by_tick.
  - unfold immediately_then_per_tick, main_health, HealthCheckPeriodically.
    rewrite Htick by (unfold Second; lia). rewrite HealthCheck_eq.
    destruct (HealthCheck_on_ticks net deliveries _ _) as [[lb2 clock2] evs2] eqn:Hrest.
    cbn [snd]. rewrite HealthCheck_range_by_tick.
    change evs2 with (lb2, clock2, evs2).2.
    rewrite <- Hrest, HealthCheck_on_ticks_by_tick. cbn [fst snd backends].
    destruct (HealthCheck_range_length net clock (backends lb)) as (-> & _ & _).
    by rewrite Nat.add_0_r.
Qed.

Lemma health_check_schedule_witness :
  immediately_then_per_tick
    (main_health net_first_silent [10 * Second; 20 * Second] 0 three_alive).2 3 2.
Proof.
  apply (health_check_schedule net_first_silent (10 * Second) [10 * Second; 20 * Second]
           0 three_alive).
  reflexivity.
Defined.

(** C7, as stated, fails: the probes of one health check run one after
    the other.  When the first backend does not answer, the probe of the
    second starts two seconds later than when it answers at once. *)
Lemma slow_probe_delays_the_next :
  same_but "a:1" net_up net_first_silent /\
  probe_start net_up 0 three_alive 1 = Some 1000 /\
  probe_start net_first_silent 0 three_alive 1 = Some (2 * Second) /\
  ~ probes_independent.
Proof.
  assert (Hsame : same_but "a:1" net_up net_first_silent).
  { intros t h Hh. unfold net_up, net_first_silent.
    apply String.eqb_neq in Hh. by rewrite Hh. }
  split_and!; [done|reflexivity|reflexivity|].
  intros Hind.
  specialize (Hind net_up net_first_silent 0 three_alive O 1%nat
                (sample_backend "a:1" true) eq_refl ltac:(done) Hsame).
  discriminate Hind.
Qed.

(** C7, amended.  One health check probes every backend once, in the
    order of registration, one probe after the other.  Whatever the
    outcomes of the other probes, backend [j] is probed and its flag is
    set to the outcome of its own probe: a failure or a timeout stops
    nothing.  But the probe of the next backend starts only when the
    probe of this one has returned: a probe that gets no answer holds the
    next one back by the two seconds of the dial timeout at least. *)
Theorem probes_sequential (net : Net) (clock : Z) (lb : LoadBalancer) (j : nat) (b : Backend) :
  backends lb !! j = Some b ->
  length (dials (HealthCheck net clock lb).2) = length (backends lb) /\
  exists start,
    probe_start net clock lb j = Some start /\
    dials (HealthCheck net clock lb).2 !! j
      = Some (Host (URL b), start, dial_ok net start (Host (URL b))) /\
    backends (HealthCheck net clock lb).1.1 !! j
      = Some (SetAlive b (dial_ok net start (Host (URL b)))) /\
    (forall b', backends lb !! S j = Some b' ->
       exists start',
         probe_start net clock lb (S j) = Some start' /\
         start + dial_elapsed net start (Host (URL b)) <= start' /\
         (net start (Host (URL b)) = NoAnswer -> start + 2 * Second <= start')).
Proof.
  intros Hj. unfold probe_start. rewrite HealthCheck_eq. cbn [fst snd backends].
  destruct (HealthCheck_range_length net clock (backends lb)) as (_ & Hlen & _).
  split; [done|].
  destruct (HealthCheck_range_probe net (backends lb) clock j b Hj)
    as (start & Hs & Hb & _ & Hnext).
  exists start. rewrite Hs. split_and!; [done|done|done|].
  intros b' Hb'. destruct (Hnext b' Hb') as [st ->].
  eexists. split_and!; [done|cbn; lia|].
  intros Hsilent. cbn [fst snd fmap option_fmap option_map].
  unfold dial_elapsed, net_DialTimeout. rewrite Hsilent. cbn. lia.
Qed.

Lemma probes_sequential_witness :
  exists start,
    probe_start net_first_silent 0 three_alive 0 = Some start /\
    dials (HealthCheck net_first_silent 0 three_alive).2 !! 0%nat
      = Some ("a:1"%string, start, dial_ok net_first_silent start "a:1") /\
    backends (HealthCheck net_first_silent 0 three_alive).1.1 !! 0%nat
      = Some (SetAlive (sample_backend "a:1" true) (dial_ok net_first_silent start "a:1")) /\
    (forall b', backends three_alive !! 1%nat = Some b' ->
       exists start',
         probe_start net_first_silent 0 three_alive 1 = Some start' /\
         start + dial_elapsed net_first_silent start "a:1" <= start' /\
         (net_first_silent start "a:1"%string = NoAnswer -> start + 2 * Second <= start')).
Proof.
  apply (probes_sequential net_first_silent 0 three_alive 0 (sample_backend "a:1" true)).
  reflexivity.
Defined.

(** ** Construction *)




Lemma dispatch_once_witness :
  ServeHTTP upstream_ok middle_dead [] sample_request
    = Ret ([WriteHeader 200; WriteBody "served by a:1"], set_current middle_dead 0,
           [EvForward "a:1" sample_request]) /\
  ServeHTTP upstream_ok three_dead [] sample_request
    = Ret ([WriteHeader 503; WriteBody ("service unavailable" ++ newline)%string],
           three_dead, []).
Proof.
  split.
  - pose proof (dispatch_once upstream_ok middle_dead [] sample_request) as H.
    change (NextBackend middle_dead) with (Ret (Some 0, set_current middle_dead 0)) in H.
    destruct H as (b & Hb & _ & _ & _ & _ & Hfwd & _).
    injection Hb as <-. apply Hfwd. reflexivity.
  - pose proof (dispatch_once upstream_ok three_dead [] sample_request) as H.
    change (NextBackend three_dead)
      with (Ret (@None Z, three_dead) : res (option Z * LoadBalancer)) in H.
    apply H.
Defined.

(** * Further properties of the code *)

(** ** Selection *)

Lemma offset_of (c N p : Z) :
  0 < N -> 0 <= p < N ->
  0 <= (p - (c + 1)) mod N < N /\ (c + 1 + (p - (c + 1)) mod N) mod N = p.
Proof.
  intros HN Hp. split; [apply Z.mod_pos_bound; lia|].
  rewrite Zplus_mod_idemp_r.
  replace (c + 1 + (p - (c + 1))) with p by lia.
  apply Z.mod_small. lia.
Qed.

Lemma offset_unique (c N j1 j2 : Z) :
  0 < N -> 0 <= j1 < N -> 0 <= j2 < N ->
  (c + 1 + j1) mod N = (c + 1 + j2) mod N -> j1 = j2.
Proof.
  intros HN H1 H2 Heq.
  assert (Hd : ((c + 1 + j1) - (c + 1 + j2)) mod N = 0).
  { rewrite Zminus_mod, Heq, Z.sub_diag. apply Z.mod_0_l. lia. }
  replace (c + 1 + j1 - (c + 1 + j2)) with (j1 - j2) in Hd by lia.
  apply Z.mod_divide in Hd as [q Hq]; [|lia].
  assert (q = 0) by nia. lia.
Qed.

Lemma alive_at_lookup lb k b :
  backends lb !! k = Some b -> alive_at lb (Z.of_nat k) = Alive b.
Proof.
  intros Hk. unfold alive_at.
  assert (index (backends lb) (Z.of_nat k) = Ret b) as ->; [|done].
  apply index_Ret. split; [lia|]. by rewrite Nat2Z.id.
Qed.

Lemma lookup_in_range lb k b :
  backends lb !! k = Some b -> 0 <= Z.of_nat k < len lb.
Proof. intros Hk. apply lookup_lt_Some in Hk. unfold len. lia. Qed.

(** X1.  On any state, a call of [NextBackend] that returns leaves the
    backends as they are.  When it returns a backend, the cursor is that
    backend's index, which lies in the slice and whose flag is true; when
    it returns none, the cursor is as it was. *)
Theorem NextBackend_frame (lb : LoadBalancer) (p : option Z) (lb' : LoadBalancer) :
  NextBackend lb = Ret (p, lb') ->
  backends lb' = backends lb /\
  match p with
  | Some i => current lb' = i /\ 0 <= i < len lb /\ alive_at lb i = true
  | None => current lb' = current lb
  end.
Proof.
  intros H. split; [by eapply NextBackend_backends|].
  destruct p as [i|].
  - apply NextBackend_Some in H as [-> Hal]. split_and!; [done| | |done];
      apply alive_at_true in Hal as (b & Hi & Hb & _);
      apply lookup_lt_Some in Hb; unfold len; lia.
  - by apply NextBackend_None in H as ->.
Qed.

Lemma NextBackend_frame_witness :
  backends (set_current middle_dead 0) = backends middle_dead /\
  current (set_current middle_dead 0) = 0 /\ 0 <= 0 < len middle_dead /\
  alive_at middle_dead 0 = true.
Proof.
  apply (NextBackend_frame middle_dead (Some 0) (set_current middle_dead 0)).
  reflexivity.
Defined.

(** X2.  In a state with at least one backend, [NextBackend] returns the
    first backend with a true flag in the circular order that starts right
    after the cursor and ends with the cursor itself; every candidate
    before it is dead.  It returns none exactly when all backends are
    dead. *)
Theorem NextBackend_selects_first_alive (lb : LoadBalancer) :
  reachable lb -> 1 <= len lb ->
  (all_dead lb /\ NextBackend lb = Ret (None, lb))
  \/
  (exists j, 0 <= j < len lb /\
     NextBackend lb
       = Ret (Some ((current lb + 1 + j) mod len lb),
              set_current lb ((current lb + 1 + j) mod len lb)) /\
     alive_at lb ((current lb + 1 + j) mod len lb) = true /\
     forall j', 0 <= j' < j -> alive_at lb ((current lb + 1 + j') mod len lb) = false).
Proof.
  intros Hreach HN. destruct (reachable_valid lb Hreach) as [Hfits Hcur].
  specialize (Hcur HN).
  destruct (NextBackend_first_alive lb Hfits Hcur) as [[Hs Hdead]|Hsome]; [left|by right].
  split; [|done]. intros b Hb.
  apply list_elem_of_lookup in Hb as [k Hk].
  rewrite <- (alive_at_lookup _ _ _ Hk).
  destruct (offset_of (current lb) (len lb) (Z.of_nat k)) as [Hj Heq];
    [lia|by eapply lookup_in_range|].
  rewrite <- Heq. by apply Hdead.
Qed.

Lemma NextBackend_selects_first_alive_witness :
  (all_dead middle_dead /\ NextBackend middle_dead = Ret (None, middle_dead))
  \/
  (exists j, 0 <= j < len middle_dead /\
     NextBackend middle_dead
       = Ret (Some ((current middle_dead + 1 + j) mod len middle_dead),
              set_current middle_dead ((current middle_dead + 1 + j) mod len middle_dead)) /\
     alive_at middle_dead ((current middle_dead + 1 + j) mod len middle_dead) = true /\
     forall j', 0 <= j' < j ->
       alive_at middle_dead ((current middle_dead + 1 + j') mod len middle_dead) = false).
Proof.
  apply (NextBackend_selects_first_alive middle_dead); [|vm_compute; discriminate].
  apply (reachable_step
           {| backends := backends middle_dead; current := 0 |}
           OpNextBackend [Some 2]); [|reflexivity].
  apply reachable_registered. vm_compute. discriminate.
Defined.

Lemma three_alive_reachable : reachable three_alive.
Proof. apply reachable_registered. vm_compute. discriminate. Qed.

Lemma middle_dead_reachable : reachable middle_dead.
Proof.
  apply (reachable_step
           {| backends := backends middle_dead; current := 0 |}
           OpNextBackend [Some 2]); [|reflexivity].
  apply reachable_registered. vm_compute. discriminate.
Qed.

(** A live backend bounds the scan: the call returns a backend no further
    from the cursor than it. *)
Lemma NextBackend_before lb k b :
  slice_fits lb -> cursor_valid lb ->
  backends lb !! k = Some b -> Alive b = true ->
  exists j, 0 <= j <= (Z.of_nat k - (current lb + 1)) mod len lb /\
    NextBackend lb
      = Ret (Some ((current lb + 1 + j) mod len lb),
             set_current lb ((current lb + 1 + j) mod len lb)) /\
    alive_at lb ((current lb + 1 + j) mod len lb) = true.
Proof.
  intros Hfits Hcur Hk Hal.
  pose proof (lookup_in_range _ _ _ Hk) as Hrange.
  destruct (offset_of (current lb) (len lb) (Z.of_nat k)) as [Hd Heq]; [lia|done|].
  assert (Hkal : alive_at lb ((current lb + 1 + (Z.of_nat k - (current lb + 1)) mod len lb)
                              mod len lb) = true)
    by (rewrite Heq, (alive_at_lookup _ _ _ Hk); done).
  destruct (NextBackend_first_alive lb Hfits Hcur)
    as [[_ Hdead]|(j & Hj & Hs & Halj & Hdead)].
  - rewrite Hdead in Hkal by done. discriminate.
  - exists j. split_and!; [lia| |done|done].
    destruct (Z.le_gt_cases j ((Z.of_nat k - (current lb + 1)) mod len lb)); [done|].
    rewrite Hdead in Hkal by lia. discriminate.
Qed.

(** X3.  The backend right after the cursor is the next one served
    whenever its flag is true, whatever the flags of the others. *)
Theorem next_in_line_is_served (lb : LoadBalancer) :
  reachable lb -> 1 <= len lb ->
  alive_at lb ((current lb + 1) mod len lb) = true ->
  NextBackend lb
    = Ret (Some ((current lb + 1) mod len lb),
           set_current lb ((current lb + 1) mod len lb)).
Proof.
  intros Hreach HN Hal. destruct (reachable_valid lb Hreach) as [Hfits Hcur].
  specialize (Hcur HN).
  destruct (NextBackend_first_alive lb Hfits Hcur)
    as [[_ Hdead]|(j & Hj & Hs & _ & Hdead)].
  - specialize (Hdead 0). rewrite Z.add_0_r, Hal in Hdead. discriminate Hdead. lia.
  - destruct (Z.eq_dec j 0) as [->|Hne]; [by rewrite Z.add_0_r in Hs|].
    specialize (Hdead 0). rewrite Z.add_0_r, Hal in Hdead. discriminate Hdead. lia.
Qed.

Lemma next_in_line_is_served_witness :
  NextBackend middle_dead = Ret (Some 0, set_current middle_dead 0).
Proof.
  apply (next_in_line_is_served middle_dead).
  - exact middle_dead_reachable.
  - vm_compute. discriminate.
  - reflexivity.
Defined.

Lemma served_within M k b :
  forall lb, slice_fits lb -> cursor_valid lb ->
  backends lb !! k = Some b -> Alive b = true ->
  (Z.of_nat k - (current lb + 1)) mod len lb < Z.of_nat M ->
  Some (Z.of_nat k) ∈ (NextBackend_times M lb).1.
Proof.
  induction M as [|M IH]; intros lb Hfits Hcur Hk Hal Hd.
  - pose proof (Z.mod_pos_bound (Z.of_nat k - (current lb + 1)) (len lb)) as Hb.
    unfold cursor_valid in Hcur. lia.
  - pose proof (lookup_in_range _ _ _ Hk) as Hrange.
    destruct (offset_of (current lb) (len lb) (Z.of_nat k)) as [Hdk Heq]; [lia|done|].
    destruct (NextBackend_before lb k b Hfits Hcur Hk Hal) as (j & Hj & Hs & _).
    rewrite NextBackend_times_S, Hs. cbn [fst].
    destruct (NextBackend_preserves _ _ _ Hs) as (Hbs & Hf & Hc).
    destruct (Z.eq_dec j ((Z.of_nat k - (current lb + 1)) mod len lb)) as [->|Hne].
    + rewrite Heq. by left.
    + right. apply IH; [auto|auto|by rewrite Hbs|done|].
      assert (Hlen : len (set_current lb ((current lb + 1 + j) mod len lb)) = len lb)
        by reflexivity.
      rewrite Hlen. cbn [current set_current].
      replace (Z.of_nat k - ((current lb + 1 + j) mod len lb + 1))
        with (Z.of_nat k - (current lb + 1) - (j + 1) - ((current lb + 1 + j) mod len lb
               - (current lb + 1 + j))) by lia.
      assert (Hmul : exists q, (current lb + 1 + j) mod len lb - (current lb + 1 + j)
                               = q * len lb).
      { exists (- ((current lb + 1 + j) / len lb)).
        pose proof (Z.div_mod (current lb + 1 + j) (len lb)). lia. }
      destruct Hmul as [q ->].
      replace (Z.of_nat k - (current lb + 1) - (j + 1) - q * len lb)
        with (Z.of_nat k - (current lb + 1) - (j + 1) + (- q) * len lb) by lia.
      rewrite Z.mod_add by lia.
      rewrite <- Zminus_mod_idemp_l.
      rewrite Z.mod_small; lia.
Qed.

(** X4.  No starvation: a backend whose flag is true is served within
    [N] consecutive calls of [NextBackend], wherever the cursor is and
    whatever the flags of the other backends. *)
Theorem alive_backend_served_within_N (lb : LoadBalancer) (k : nat) (b : Backend) :
  reachable lb -> backends lb !! k = Some b -> Alive b = true ->
  Some (Z.of_nat k) ∈ (NextBackend_times (length (backends lb)) lb).1.
Proof.
  intros Hreach Hk Hal. pose proof (lookup_in_range _ _ _ Hk) as Hrange.
  destruct (reachable_valid lb Hreach) as [Hfits Hcur].
  apply (served_within _ k b); [done|apply Hcur; lia|done|done|].
  fold (len lb). apply Z.mod_pos_bound. lia.
Qed.

Lemma alive_backend_served_within_N_witness :
  Some 2 ∈ (NextBackend_times 3 middle_dead).1.
Proof.
  apply (alive_backend_served_within_N middle_dead 2 (sample_backend "c:3" true)).
  - exact middle_dead_reachable.
  - reflexivity.
  - reflexivity.
Defined.

(** X5.  While a backend other than the one under the cursor is alive,
    [NextBackend] moves on: it returns a backend, and not the one it
    returned last.  So with two live backends no two consecutive calls
    return the same one. *)
Theorem never_twice_in_a_row (lb : LoadBalancer) (k : nat) (b : Backend) :
  reachable lb -> backends lb !! k = Some b -> Alive b = true ->
  Z.of_nat k <> current lb ->
  (exists p lb', NextBackend lb = Ret (Some p, lb') /\ p <> current lb) /\
  (forall k2 b2 p1 lb1,
     backends lb !! k2 = Some b2 -> Alive b2 = true -> k2 <> k ->
     NextBackend lb = Ret (Some p1, lb1) ->
     exists p2 lb2, NextBackend lb1 = Ret (Some p2, lb2) /\ p2 <> p1).
Proof.
  assert (Hmove : forall lb0 k0 b0, slice_fits lb0 -> cursor_valid lb0 ->
            backends lb0 !! k0 = Some b0 -> Alive b0 = true ->
            Z.of_nat k0 <> current lb0 ->
            exists p lb', NextBackend lb0 = Ret (Some p, lb') /\ p <> current lb0).
  { intros lb0 k0 b0 Hfits Hcur Hk Hal Hne.
    pose proof (lookup_in_range _ _ _ Hk) as Hrange.
    assert (Hc : 0 <= current lb0 < len lb0) by exact Hcur.
    destruct (offset_of (current lb0) (len lb0) (Z.of_nat k0)) as [Hd Heq]; [lia|done|].
    destruct (NextBackend_before lb0 k0 b0 Hfits Hcur Hk Hal) as (j & Hj & Hs & _).
    eexists _, _. split; [exact Hs|]. intros Hsame.
    assert (Hlast : (current lb0 + 1 + (len lb0 - 1)) mod len lb0 = current lb0).
    { replace (current lb0 + 1 + (len lb0 - 1)) with (current lb0 + 1 * len lb0) by lia.
      rewrite Z.mod_add by lia. apply Z.mod_small. lia. }
    assert (Hjlast : j = len lb0 - 1).
    { apply (offset_unique (current lb0) (len lb0)); [lia|lia|lia|]. by rewrite Hlast. }
    assert (Hdlast : (Z.of_nat k0 - (current lb0 + 1)) mod len lb0 = len lb0 - 1) by lia.
    rewrite Hdlast, Hlast in Heq. lia. }
  intros Hreach Hk Hal Hne. destruct (reachable_valid lb Hreach) as [Hfits Hcur].
  pose proof (lookup_in_range _ _ _ Hk) as Hrange.
  assert (Hcur' : cursor_valid lb) by (apply Hcur; lia).
  split; [by eapply Hmove|].
  intros k2 b2 p1 lb1 Hk2 Hal2 Hk2k H1.
  destruct (NextBackend_preserves _ _ _ H1) as (Hbs & Hf & Hc).
  apply NextBackend_Some in H1 as [-> _].
  change p1 with (current (set_current lb p1)) at 2.
  destruct (Z.eq_dec (Z.of_nat k) p1) as [<-|Hkp].
  - apply (Hmove _ k2 b2); [auto|auto|done|done|]. cbn [current set_current]. lia.
  - apply (Hmove _ k b); [auto|auto|done|done|done].
Qed.

Lemma never_twice_in_a_row_witness :
  exists p lb', NextBackend middle_dead = Ret (Some p, lb') /\ p <> current middle_dead.
Proof.
  apply (never_twice_in_a_row middle_dead 0 (sample_backend "a:1" true)).
  - exact middle_dead_reachable.
  - reflexivity.
  - reflexivity.
  - vm_compute. discriminate.
Defined.

(** X6.  With exactly one backend alive, every call returns that backend,
    however many calls are made and wherever the cursor started. *)
Theorem single_alive_takes_all (lb : LoadBalancer) (k : nat) (b : Backend) (M : nat) :
  reachable lb -> backends lb !! k = Some b -> Alive b = true ->
  (forall k' b', backends lb !! k' = Some b' -> Alive b' = true -> k' = k) ->
  NextBackend_times M lb
    = (replicate M (Some (Z.of_nat k)), Ret (if M is O then lb else set_current lb (Z.of_nat k))).
Proof.
  intros Hreach Hk Hal Honly. destruct (reachable_valid lb Hreach) as [Hfits Hcur].
  pose proof (lookup_in_range _ _ _ Hk) as Hrange.
  assert (Hcur' : cursor_valid lb) by (apply Hcur; lia). clear Hcur Hreach.
  assert (Hcall : forall lb0, slice_fits lb0 -> cursor_valid lb0 ->
            backends lb0 = backends lb ->
            NextBackend lb0 = Ret (Some (Z.of_nat k), set_current lb0 (Z.of_nat k))).
  { intros lb0 Hf Hc Hbs. rewrite <- Hbs in Hk.
    destruct (NextBackend_before lb0 k b Hf Hc Hk Hal) as (j & _ & Hs & Halj).
    apply alive_at_true in Halj as (b' & Hp & Hb' & Hal').
    rewrite Hbs in Hb'. apply Honly in Hb'; [|done].
    assert (Hidx : (current lb0 + 1 + j) mod len lb0 = Z.of_nat k) by lia.
    by rewrite Hidx in Hs. }
  assert (Hgen : forall M lb0, slice_fits lb0 -> cursor_valid lb0 ->
            backends lb0 = backends lb ->
            NextBackend_times M lb0
              = (replicate M (Some (Z.of_nat k)),
                 Ret (if M is O then lb0 else set_current lb (Z.of_nat k)))).
  { clear M. induction M as [|M IH]; intros lb0 Hf Hc Hbs; [done|].
    pose proof (Hcall lb0 Hf Hc Hbs) as H1.
    destruct (NextBackend_preserves _ _ _ H1) as (Hbs1 & Hf1 & Hc1).
    rewrite NextBackend_times_S, H1, IH; [|auto|auto|congruence].
    cbn [fst snd replicate]. do 2 f_equal.
    destruct M; [|done]. unfold set_current. by rewrite Hbs. }
  by apply Hgen.
Qed.

Lemma single_alive_takes_all_witness :
  NextBackend_times 4 {| backends := [sample_backend "a:1" false; sample_backend "b:2" true];
                         current := 0 |}
    = (replicate 4 (Some 1),
       Ret {| backends := [sample_backend "a:1" false; sample_backend "b:2" true];
              current := 1 |}).
Proof.
  apply (single_alive_takes_all
           {| backends := [sample_backend "a:1" false; sample_backend "b:2" true];
              current := 0 |} 1 (sample_backend "b:2" true) 4).
  - apply reachable_registered. vm_compute. discriminate.
  - reflexivity.
  - reflexivity.
  - intros [|[|k']] b' Hb' Hal'; [|done|done].
    injection Hb' as <-. discriminate Hal'.
Defined.

(** ** Selection and flag updates together *)

Lemma step_SetAlive lb k alive :
  (k < length (backends lb))%nat ->
  exists bk, backends lb !! k = Some bk /\
    step (OpSetAlive k alive) lb
      = Ret ([], {| backends := <[k := SetAlive bk alive]> (backends lb);
                    current := current lb |}).
Proof.
  intros Hk. destruct (lookup_lt_is_Some_2 _ _ Hk) as [bk Hbk].
  exists bk. split; [done|]. cbn [step].
  assert (index (backends lb) (Z.of_nat k) = Ret bk) as ->; [|done].
  apply index_Ret. split; [lia|]. by rewrite Nat2Z.id.
Qed.

(** X7.  Self-healing: once [SetAlive(true)] has run on a registered
    backend, that backend is served within the next [N] calls of
    [NextBackend]; there is no separate step of re-admission. *)
Theorem revived_backend_is_served (lb : LoadBalancer) (k : nat) :
  reachable lb -> (k < length (backends lb))%nat ->
  Some (Z.of_nat k)
    ∈ (run (OpSetAlive k true :: replicate (length (backends lb)) OpNextBackend) lb).1.
Proof.
  intros Hreach Hk. destruct (step_SetAlive lb k true Hk) as (bk & Hbk & Hstep).
  rewrite run_cons, Hstep. cbn [fst app].
  set (lb1 := {| backends := <[k:=SetAlive bk true]> (backends lb); current := current lb |}).
  assert (Hreach1 : reachable lb1) by (eapply reachable_step; eauto).
  destruct (reachable_valid lb1 Hreach1) as [Hfits Hcur].
  assert (Hlen : length (backends lb1) = length (backends lb))
    by (cbn; apply length_insert).
  rewrite <- Hlen.
  apply (served_within _ k (SetAlive bk true)); [done| | |done|].
  - apply Hcur. unfold len. lia.
  - cbn. by apply list_lookup_insert_eq.
  - apply Z.mod_pos_bound. unfold len. lia.
Qed.

Lemma revived_backend_is_served_witness :
  Some 1 ∈ (run (OpSetAlive 1 true :: replicate 3 OpNextBackend) three_dead).1.
Proof.
  apply (revived_backend_is_served three_dead 1).
  - exact three_dead_reachable.
  - vm_compute. lia.
Defined.

Lemma on_registered_forallb lb ops :
  forallb (fun o => match o with
                    | OpSetAlive k _ => Nat.ltb k (length (backends lb))
                    | OpNextBackend => true
                    end) ops = true ->
  on_registered lb ops.
Proof.
  intros H k alive Hin. rewrite forallb_forall in H.
  apply list_elem_of_In, H in Hin. by apply Nat.ltb_lt in Hin.
Qed.

(** X8.  With at least one backend, no interleaving of [NextBackend]
    calls with [SetAlive] calls on registered backends panics: [K] calls
    give exactly [K] results, each of them none or an index into the
    slice, and the cursor is a valid index afterwards. *)
Theorem interleaved_calls_are_safe (lb : LoadBalancer) (ops : list op) :
  reachable lb -> 1 <= len lb -> on_registered lb ops ->
  exists lb', (run ops lb).2 = Ret lb' /\
    length (run ops lb).1 = calls ops /\
    (forall p, Some p ∈ (run ops lb).1 -> 0 <= p < len lb) /\
    len lb' = len lb /\ 0 <= current lb' < len lb'.
Proof.
  intros Hreach HN Hops. destruct (reachable_valid lb Hreach) as [Hfits Hcur].
  specialize (Hcur HN). clear Hreach HN.
  revert lb Hfits Hcur Hops. induction ops as [|o ops IH]; intros lb Hfits Hcur Hops.
  - exists lb. split_and!; [done|done| |done|apply Hcur|apply Hcur].
    intros p Hp. by apply not_elem_of_nil in Hp.
  - assert (Hstep : exists out lb1, step o lb = Ret (out, lb1) /\
              length out = calls [o] /\
              (forall p, Some p ∈ out -> 0 <= p < len lb)).
    { destruct o as [|k alive].
      - destruct (NextBackend_returns lb Hfits Hcur) as (p & lb1 & H1).
        exists [p], lb1. cbn [step]. rewrite H1. split_and!; [done|done|].
        intros q Hq. apply list_elem_of_singleton in Hq as <-.
        apply NextBackend_Some in H1 as [_ Hal].
        apply alive_at_true in Hal as (b & Hq & Hb & _).
        apply lookup_lt_Some in Hb. unfold len. lia.
      - destruct (step_SetAlive lb k alive) as (bk & _ & ->); [apply (Hops k alive); left|].
        eexists _, _. split_and!; [done|done|].
        intros p Hp. by apply not_elem_of_nil in Hp. }
    destruct Hstep as (out & lb1 & Hstep & Hlen & Hout).
    destruct (step_preserves _ _ _ _ Hstep) as (Hlen1 & Hf & Hc).
    destruct (IH lb1) as (lb' & Hrun & Hcount & Hvalid & Hlen' & Hcur'); [auto|auto| |].
    { intros k alive Hin. assert (length (backends lb1) = length (backends lb)) as ->
        by (unfold len in Hlen1; lia).
      apply (Hops k alive). by right. }
    exists lb'. rewrite run_cons, Hstep. cbn [fst snd].
    split_and!; [done| | |lia|lia|lia].
    + rewrite length_app, Hcount, Hlen. unfold calls. destruct o; simpl; lia.
    + intros p Hp. apply elem_of_app in Hp as [Hp|Hp]; [auto|].
      rewrite <- Hlen1. auto.
Qed.

Lemma interleaved_calls_are_safe_witness :
  exists lb', (run [OpNextBackend; OpSetAlive 0 false; OpNextBackend; OpSetAlive 2 false;
                    OpNextBackend; OpNextBackend] middle_dead).2 = Ret lb' /\
    length (run [OpNextBackend; OpSetAlive 0 false; OpNextBackend; OpSetAlive 2 false;
                 OpNextBackend; OpNextBackend] middle_dead).1
      = calls [OpNextBackend; OpSetAlive 0 false; OpNextBackend; OpSetAlive 2 false;
               OpNextBackend; OpNextBackend] /\
    (forall p, Some p ∈ (run [OpNextBackend; OpSetAlive 0 false; OpNextBackend;
                              OpSetAlive 2 false; OpNextBackend; OpNextBackend]
                           middle_dead).1 -> 0 <= p < len middle_dead) /\
    len lb' = len middle_dead /\ 0 <= current lb' < len lb'.
Proof.
  apply (interleaved_calls_are_safe middle_dead).
  - exact middle_dead_reachable.
  - vm_compute. discriminate.
  - apply on_registered_forallb. reflexivity.
Defined.

(** ** Health checks *)

Lemma HealthCheck_range_frame net bs :
  forall clock,
  map URL (HealthCheck_range net clock bs).1.1 = map URL bs /\
  map ReverseProxy (HealthCheck_range net clock bs).1.1 = map ReverseProxy bs.
Proof.
  induction bs as [|b rest IH]; intros clock; [done|].
  destruct (HealthCheck_range_cons net clock b rest) as (prints & -> & _).
  cbn [fst snd map SetAlive URL ReverseProxy].
  destruct (IH (clock + dial_elapsed net clock (Host (URL b)))) as [-> ->]. done.
Qed.

Lemma HealthCheck_changes_flags_only_aux net clock lb :
  current (HealthCheck net clock lb).1.1 = current lb /\
  map URL (backends (HealthCheck net clock lb).1.1) = map URL (backends lb) /\
  map ReverseProxy (backends (HealthCheck net clock lb).1.1)
    = map ReverseProxy (backends lb).
Proof.
  rewrite HealthCheck_eq. cbn [fst snd backends current].
  destruct (HealthCheck_range_frame net (backends lb) clock) as [Hurl Hproxy].
  by split_and!.
Qed.

(** X9.  A health check writes flags and nothing else: the cursor, the
    number of backends, and the address and the forwarding handle of every
    backend are as before. *)
Theorem HealthCheck_changes_flags_only (net : Net) (clock : Z) (lb : LoadBalancer) :
  current (HealthCheck net clock lb).1.1 = current lb /\
  length (backends (HealthCheck net clock lb).1.1) = length (backends lb) /\
  map URL (backends (HealthCheck net clock lb).1.1) = map URL (backends lb) /\
  map ReverseProxy (backends (HealthCheck net clock lb).1.1)
    = map ReverseProxy (backends lb).
Proof.
  rewrite HealthCheck_eq. cbn [fst snd backends current].
  destruct (HealthCheck_range_length net clock (backends lb)) as (Hlen & _ & _).
  destruct (HealthCheck_range_frame net (backends lb) clock) as [Hurl Hproxy].
  by split_and!.
Qed.

Lemma HealthCheck_range_same_urls net bs1 :
  forall bs2 clock, map URL bs1 = map URL bs2 ->
  map Alive (HealthCheck_range net clock bs1).1.1
    = map Alive (HealthCheck_range net clock bs2).1.1 /\
  (HealthCheck_range net clock bs1).1.2 = (HealthCheck_range net clock bs2).1.2 /\
  (HealthCheck_range net clock bs1).2 = (HealthCheck_range net clock bs2).2.
Proof.
  induction bs1 as [|b1 rest1 IH]; intros [|b2 rest2] clock Hurls; try done.
  injection Hurls as Hu Hrest.
  cbn [HealthCheck_range]. rewrite <- Hu.
  destruct (isBackendAlive net clock (URL b1)) as [[status clock1] evs1].
  destruct (IH rest2 clock1 Hrest) as (Hal & Hclock & Hevs).
  destruct (HealthCheck_range net clock1 rest1) as [[r1 c1] e1].
  destruct (HealthCheck_range net clock1 rest2) as [[r2 c2] e2].
  cbn [fst snd map SetAlive Alive] in *. split_and!; congruence.
Qed.

Lemma HealthCheck_forgets_flags_aux net clock lb1 lb2 :
  map URL (backends lb1) = map URL (backends lb2) ->
  map Alive (backends (HealthCheck net clock lb1).1.1)
    = map Alive (backends (HealthCheck net clock lb2).1.1) /\
  (HealthCheck net clock lb1).1.2 = (HealthCheck net clock lb2).1.2.
Proof.
  intros Hurls. rewrite !HealthCheck_eq. cbn [fst snd backends].
  destruct (HealthCheck_range_same_urls net (backends lb1) (backends lb2) clock Hurls)
    as (? & ? & _). done.
Qed.

(** X10.  The flags a health check leaves do not depend on the flags it
    found: on two balancers with the same addresses it leaves the same
    flags, takes the same time and does the same probes. *)
Theorem HealthCheck_forgets_flags (net : Net) (clock : Z) (lb1 lb2 : LoadBalancer) :
  map URL (backends lb1) = map URL (backends lb2) ->
  map Alive (backends (HealthCheck net clock lb1).1.1)
    = map Alive (backends (HealthCheck net clock lb2).1.1) /\
  (HealthCheck net clock lb1).1.2 = (HealthCheck net clock lb2).1.2 /\
  (HealthCheck net clock lb1).2 = (HealthCheck net clock lb2).2.
Proof.
  intros Hurls. rewrite !HealthCheck_eq. cbn [fst snd backends].
  by apply HealthCheck_range_same_urls.
Qed.

Lemma HealthCheck_forgets_flags_witness :
  map Alive (backends (HealthCheck net_first_silent 0 three_alive).1.1)
    = map Alive (backends (HealthCheck net_first_silent 0 three_dead).1.1).
Proof.
  apply (HealthCheck_forgets_flags net_first_silent 0 three_alive three_dead).
  reflexivity.
Defined.

Lemma HealthCheck_range_silent net bs :
  forall clock,
  (forall t b, b ∈ bs -> net t (Host (URL b)) = NoAnswer) ->
  clock + Z.of_nat (length bs) * (2 * Second) <= (HealthCheck_range net clock bs).1.2 /\
  forall b, b ∈ (HealthCheck_range net clock bs).1.1 -> Alive b = false.
Proof.
  induction bs as [|b rest IH]; intros clock Hsilent.
  - split; [simpl; lia|]. intros b Hb. by apply not_elem_of_nil in Hb.
  - destruct (HealthCheck_range_cons net clock b rest) as (prints & -> & _).
    cbn [fst snd].
    assert (Hb : net clock (Host (URL b)) = NoAnswer) by (apply Hsilent; left).
    assert (Hel : dial_elapsed net clock (Host (URL b)) = 2 * Second)
      by (unfold dial_elapsed, net_DialTimeout; by rewrite Hb).
    assert (Hok : dial_ok net clock (Host (URL b)) = false)
      by (unfold dial_ok, net_DialTimeout; by rewrite Hb).
    rewrite Hel, Hok.
    destruct (IH (clock + 2 * Second)) as [Hle Hdead];
      [intros t b' Hb'; apply Hsilent; by right|].
    split; [cbn [length]; lia|].
    intros b' Hb'. apply elem_of_cons in Hb' as [->|Hb']; [done|auto].
Qed.

(** X11.  When no registered host answers, a health check over [N]
    backends does not return before [N] dial timeouts of two seconds have
    passed since it started, and it leaves every backend dead. *)
Theorem HealthCheck_blocks_on_silent_hosts (net : Net) (clock : Z) (lb : LoadBalancer) :
  (forall t b, b ∈ backends lb -> net t (Host (URL b)) = NoAnswer) ->
  clock + len lb * (2 * Second) <= (HealthCheck net clock lb).1.2 /\
  all_dead (HealthCheck net clock lb).1.1.
Proof.
  intros Hsilent. rewrite !HealthCheck_eq. cbn [fst snd]. unfold all_dead, len.
  cbn [backends]. by apply HealthCheck_range_silent.
Qed.

Lemma HealthCheck_blocks_on_silent_hosts_witness :
  0 + len three_alive * (2 * Second) <= (HealthCheck net_silent 0 three_alive).1.2 /\
  all_dead (HealthCheck net_silent 0 three_alive).1.1.
Proof.
  apply (HealthCheck_blocks_on_silent_hosts net_silent 0 three_alive).
  reflexivity.
Defined.

Lemma dead_not_returned M k b :
  forall lb, backends lb !! k = Some b -> Alive b = false ->
  Some (Z.of_nat k) ∉ (NextBackend_times M lb).1.
Proof.
  induction M as [|M IH]; intros lb Hk Hdead; [apply not_elem_of_nil|].
  rewrite NextBackend_times_S.
  destruct (NextBackend lb) as [[p lb1]|e] eqn:H1; [|apply not_elem_of_nil].
  cbn [fst]. apply not_elem_of_cons. split.
  - intros <-. apply NextBackend_Some in H1 as [_ Hal].
    rewrite (alive_at_lookup _ _ _ Hk) in Hal. congruence.
  - apply IH; [|done]. by rewrite (NextBackend_backends _ _ _ H1).
Qed.

(** X12.  After a health check, selection follows the probes: a backend
    whose probe failed is returned by no later call of [NextBackend], and
    a backend whose probe succeeded is returned within the next [N]
    calls. *)
Theorem selection_follows_the_probe (net : Net) (clock : Z) (lb : LoadBalancer)
    (k : nat) (b : Backend) :
  reachable lb -> backends lb !! k = Some b ->
  exists start,
    probe_start net clock lb k = Some start /\
    if dial_ok net start (Host (URL b))
    then Some (Z.of_nat k)
           ∈ (NextBackend_times (length (backends lb)) (HealthCheck net clock lb).1.1).1
    else forall M, Some (Z.of_nat k) ∉ (NextBackend_times M (HealthCheck net clock lb).1.1).1.
Proof.
  intros Hreach Hk. pose proof (lookup_in_range _ _ _ Hk) as Hrange.
  destruct (reachable_valid lb Hreach) as [Hfits Hcur].
  assert (Hcur' : cursor_valid lb) by (apply Hcur; lia).
  unfold probe_start. rewrite HealthCheck_eq. cbn [fst snd].
  destruct (HealthCheck_range_probe net (backends lb) clock k b Hk)
    as (start & Hs & Hb & _).
  destruct (HealthCheck_range_length net clock (backends lb)) as (Hlen & _ & _).
  exists start. rewrite Hs. split; [done|].
  set (lb1 := {| backends := (HealthCheck_range net clock (backends lb)).1.1;
                 current := current lb |}).
  destruct (dial_ok net start (Host (URL b))) eqn:Hok.
  - rewrite <- Hlen. change (HealthCheck_range net clock (backends lb)).1.1
      with (backends lb1).
    apply (served_within _ k (SetAlive b true)).
    + unfold slice_fits, len. cbn [backends lb1]. rewrite Hlen. exact Hfits.
    + unfold cursor_valid, len. cbn [backends current lb1]. rewrite Hlen. exact Hcur'.
    + exact Hb.
    + done.
    + apply Z.mod_pos_bound. unfold len. cbn [backends lb1]. rewrite Hlen.
      unfold len in Hrange. lia.
  - intros M. by apply (dead_not_returned M k (SetAlive b false)).
Qed.

Lemma selection_follows_the_probe_witness :
  exists start,
    probe_start net_first_silent 0 three_alive 0 = Some start /\
    if dial_ok net_first_silent start "a:1"
    then Some 0 ∈ (NextBackend_times 3 (HealthCheck net_first_silent 0 three_alive).1.1).1
    else forall M,
      Some 0 ∉ (NextBackend_times M (HealthCheck net_first_silent 0 three_alive).1.1).1.
Proof.
  apply (selection_follows_the_probe net_first_silent 0 three_alive 0
           (sample_backend "a:1" true)).
  - exact three_alive_reachable.
  - reflexivity.
Defined.

Lemma HealthCheck_on_ticks_app net ch1 ch2 :
  forall clock lb,
  HealthCheck_on_ticks net (ch1 ++ ch2) clock lb
    = (let r1 := HealthCheck_on_ticks net ch1 clock lb in
       let r2 := HealthCheck_on_ticks net ch2 r1.1.2 r1.1.1 in
       (r2.1.1, r2.1.2, r1.2 ++ r2.2)).
Proof.
  induction ch1 as [|t ch1 IH]; intros clock lb.
  - cbn. by destruct (HealthCheck_on_ticks net ch2 clock lb) as [[? ?] ?].
  - cbn [app HealthCheck_on_ticks].
    destruct (HealthCheck net (Z.max clock t) lb) as [[lb1 clock1] evs1].
    rewrite IH. cbn zeta.
    destruct (HealthCheck_on_ticks net ch1 clock1 lb1) as [[lb2 clock2] evs2].
    cbn [fst snd].
    destruct (HealthCheck_on_ticks net ch2 clock2 lb2) as [[lb3 clock3] evs3].
    cbn [fst snd]. by rewrite app_comm_cons, app_assoc.
Qed.

Lemma HealthCheck_on_ticks_frame net ch :
  forall clock lb,
  current (HealthCheck_on_ticks net ch clock lb).1.1 = current lb /\
  map URL (backends (HealthCheck_on_ticks net ch clock lb).1.1) = map URL (backends lb) /\
  map ReverseProxy (backends (HealthCheck_on_ticks net ch clock lb).1.1)
    = map ReverseProxy (backends lb).
Proof.
  induction ch as [|t ch IH]; intros clock lb; [done|].
  cbn [HealthCheck_on_ticks].
  destruct (HealthCheck_changes_flags_only_aux net (Z.max clock t) lb) as (Hc & Hu & Hp).
  destruct (HealthCheck net (Z.max clock t) lb) as [[lb1 clock1] evs1].
  destruct (IH clock1 lb1) as (Hc' & Hu' & Hp').
  destruct (HealthCheck_on_ticks net ch clock1 lb1) as [[lb2 clock2] evs2].
  cbn [fst snd] in *. split_and!; congruence.
Qed.

(** X13.  However many ticks it has served, [HealthCheckPeriodically]
    has moved no cursor and changed no address or forwarding handle, and
    the flags it leaves are those of one health check run at its last
    tick: earlier rounds leave no trace. *)
Theorem latest_check_decides (net : Net) (interval : Z) (deliveries : list Z) (t : Z)
    (clock : Z) (lb : LoadBalancer) :
  0 < interval ->
  current (HealthCheckPeriodically net interval (deliveries ++ [t]) clock lb).1.1
    = current lb /\
  map URL (backends (HealthCheckPeriodically net interval (deliveries ++ [t]) clock lb).1.1)
    = map URL (backends lb) /\
  exists now, t <= now /\
    map Alive (backends (HealthCheckPeriodically net interval (deliveries ++ [t])
                           clock lb).1.1)
      = map Alive (backends (HealthCheck net now lb).1.1).
Proof.
  intros Hpos. unfold HealthCheckPeriodically, time_Tick.
  destruct (Z.leb_spec interval 0); [lia|].
  destruct (HealthCheck_on_ticks_frame net (deliveries ++ [t]) clock lb) as (Hc & Hu & _).
  split_and!; [done|done|].
  rewrite HealthCheck_on_ticks_app. cbn zeta.
  destruct (HealthCheck_on_ticks_frame net deliveries clock lb) as (_ & Hu1 & _).
  destruct (HealthCheck_on_ticks net deliveries clock lb) as [[lb1 clock1] evs1].
  cbn [fst snd HealthCheck_on_ticks] in *.
  exists (Z.max clock1 t). split; [lia|].
  destruct (HealthCheck_forgets_flags_aux net (Z.max clock1 t) lb1 lb Hu1) as (Hal & _).
  by destruct (HealthCheck net (Z.max clock1 t) lb1) as [[lb2 clock2] evs2].
Qed.

Lemma latest_check_decides_witness :
  exists now, 20 * Second <= now /\
    map Alive (backends (HealthCheckPeriodically net_first_silent (10 * Second)
                           ([10 * Second] ++ [20 * Second]) 0 three_dead).1.1)
      = map Alive (backends (HealthCheck net_first_silent now three_dead).1.1).
Proof.
  apply (latest_check_decides net_first_silent (10 * Second) [10 * Second] (20 * Second)
           0 three_dead).
  reflexivity.
Defined.

(** ** Construction and dispatch *)

Lemma register_outcome url_Parse servers :
  forall lb,
  match register url_Parse lb servers with
  | Ret lb' =>
      current lb' = current lb /\
      exists us, Forall2 (fun s u => url_Parse s = inr u) servers us /\
        backends lb' = backends lb ++ map (fun u => new_Backend u (new_proxy u)) us
  | Panic e =>
      exists pre s post err,
        servers = pre ++ s :: post /\
        Forall (fun s' => exists u, url_Parse s' = inr u) pre /\
        url_Parse s = inl err /\ e = Fatal err
  end.
Proof.
  induction servers as [|s rest IH]; intros lb; cbn [register].
  - split; [done|]. exists []. split; [constructor|]. by rewrite app_nil_r.
  - destruct (url_Parse s) as [err|u] eqn:Hs.
    + exists [], s, rest, err. by split_and!.
    + specialize (IH {| backends := backends lb ++ [new_Backend u (new_proxy u)];
                        current := current lb |}).
      destruct (register url_Parse _ rest) as [lb'|e].
      * destruct IH as (Hcur & us & Hus & Hbs). cbn [backends current] in *.
        split; [done|]. exists (u :: us). split; [by constructor|].
        rewrite Hbs, <- app_assoc. done.
      * destruct IH as (pre & s' & post & err & -> & Hpre & Hs' & ->).
        exists (s :: pre), s', post, err. split_and!; [done| |done|done].
        constructor; eauto.
Qed.

(** X14.  Registration, as [main] does it, keeps the order of the server
    list: the backends are the parsed addresses, one per entry and in the
    order of the list, each dead and each with a proxy to its own
    address, and the cursor is 0.  The first address that does not parse
    is fatal, and no balancer is built. *)
Theorem registration_in_order (url_Parse : string -> string + url_URL)
    (servers : list string) :
  match register url_Parse new_LoadBalancer servers with
  | Ret lb =>
      current lb = 0 /\
      length (backends lb) = length servers /\
      Forall2 (fun s b => url_Parse s = inr (URL b)) servers (backends lb) /\
      all_dead lb /\ proxied lb /\
      (forall b, b ∈ backends lb -> Target (ReverseProxy b) = URL b)
  | Panic e =>
      exists pre s post err,
        servers = pre ++ s :: post /\
        Forall (fun s' => exists u, url_Parse s' = inr u) pre /\
        url_Parse s = inl err /\ e = Fatal err
  end.
Proof.
  pose proof (register_outcome url_Parse servers new_LoadBalancer) as H.
  destruct (register url_Parse new_LoadBalancer servers) as [lb|e]; [|done].
  destruct H as (Hcur & us & Hus & Hbs). cbn [backends new_LoadBalancer app] in Hbs.
  assert (Hin : forall b, b ∈ backends lb -> exists u, b = new_Backend u (new_proxy u)).
  { intros b Hb. rewrite Hbs in Hb. apply list_elem_of_fmap in Hb as (u & -> & _). eauto. }
  split_and!; [done| | | | |].
  - rewrite Hbs, length_map. symmetry. by eapply Forall2_length.
  - rewrite Hbs. clear Hbs Hin. induction Hus; constructor; auto.
  - intros b Hb. by destruct (Hin b Hb) as [u ->].
  - intros b Hb. by destruct (Hin b Hb) as [u ->].
  - intros b Hb. by destruct (Hin b Hb) as [u ->].
Qed.

Lemma forwards_app evs1 evs2 : forwards (evs1 ++ evs2) = forwards evs1 ++ forwards evs2.
Proof. induction evs1 as [|[] evs1 IH]; simpl; by rewrite ?IH. Qed.

Lemma host_at_lookup lb p b : index (backends lb) p = Ret b -> host_at lb p = Host (URL b).
Proof. intros H. unfold host_at. by rewrite H. Qed.

Lemma proxy_of_main up u w r :
  ReverseProxy_ServeHTTP up (new_proxy u) w r
    = match up (Host u) r with
      | inr ws => (w ++ ws, [EvForward (Host u) r])
      | inl err => (http_Error w "service unavailable" StatusServiceUnavailable,
                    [EvForward (Host u) r; EvPrint (err ++ newline)%string])
      end.
Proof. unfold ReverseProxy_ServeHTTP. cbn. by destruct (up (Host u) r). Qed.

Lemma ServeHTTP_proxied up lb w r p lb' b :
  proxied lb -> NextBackend lb = Ret (Some p, lb') -> index (backends lb) p = Ret b ->
  ServeHTTP up lb w r
    = Ret (match up (Host (URL b)) r with
           | inr ws => w ++ ws
           | inl err => http_Error w "service unavailable" StatusServiceUnavailable
           end, lb',
           match up (Host (URL b)) r with
           | inr ws => [EvForward (Host (URL b)) r]
           | inl err => [EvForward (Host (URL b)) r; EvPrint (err ++ newline)%string]
           end).
Proof.
  intros Hprox Hnext Hb. unfold ServeHTTP. rewrite Hnext, bind_Ret.
  rewrite (NextBackend_backends _ _ _ Hnext), Hb, bind_Ret.
  rewrite Hprox, proxy_of_main.
  - by destruct (up (Host (URL b)) r).
  - apply index_Ret in Hb as [_ Hb]. by eapply list_elem_of_lookup_2.
Qed.

(** X15.  One request, one attempt: [ServeHTTP] forwards at most once, to
    the backend it moved the cursor to, and never retries on another
    backend.  When the upstream exchange fails the caller gets the same 503
    as when no backend is alive, and no flag changes: the failed backend
    stays alive until a health check says otherwise. *)
Theorem dispatch_one_attempt (up : Upstream) (lb : LoadBalancer) (w : ResponseWriter)
    (r : Request) (w' : ResponseWriter) (lb' : LoadBalancer) (evs : list event) :
  proxied lb -> ServeHTTP up lb w r = Ret (w', lb', evs) ->
  backends lb' = backends lb /\
  ((forwards evs = [] /\ lb' = lb /\
    w' = http_Error w "service unavailable" StatusServiceUnavailable)
   \/
   (forwards evs = [(host_at lb (current lb'), r)] /\
    alive_at lb' (current lb') = true /\
    match up (host_at lb (current lb')) r with
    | inr ws => w' = w ++ ws
    | inl err => w' = http_Error w "service unavailable" StatusServiceUnavailable
    end)).
Proof.
  intros Hprox Hserve.
  destruct (NextBackend lb) as [[[p|] lb1]|e] eqn:Hnext.
  - destruct (NextBackend_Some _ _ _ Hnext) as [-> Hal].
    pose proof Hal as Hal'. apply alive_at_true in Hal' as (b & Hp & Hb & _).
    assert (Hidx : index (backends lb) p = Ret b) by (by apply index_Ret).
    rewrite (ServeHTTP_proxied up lb w r p _ b Hprox Hnext Hidx) in Hserve.
    injection Hserve as <- <- <-. split; [done|]. right.
    cbn [current set_current]. rewrite (host_at_lookup _ _ _ Hidx).
    split_and!; [by destruct (up (Host (URL b)) r)|done|by destruct (up (Host (URL b)) r)].
  - apply NextBackend_None in Hnext as Heq. subst lb1.
    unfold ServeHTTP in Hserve. rewrite Hnext, bind_Ret in Hserve.
    injection Hserve as <- <- <-. split; [done|]. by left.
  - unfold ServeHTTP in Hserve. by rewrite Hnext in Hserve.
Qed.

Lemma dispatch_one_attempt_witness :
  backends (set_current middle_dead 0) = backends middle_dead /\
  ((forwards [EvForward "a:1" sample_request; EvPrint ("connection refused" ++ newline)%string]
      = [] /\ set_current middle_dead 0 = middle_dead /\
    [WriteHeader 503; WriteBody ("service unavailable" ++ newline)%string]
      = http_Error [] "service unavailable" StatusServiceUnavailable)
   \/
   (forwards [EvForward "a:1" sample_request; EvPrint ("connection refused" ++ newline)%string]
      = [(host_at middle_dead (current (set_current middle_dead 0)), sample_request)] /\
    alive_at (set_current middle_dead 0) (current (set_current middle_dead 0)) = true /\
    match upstream_down (host_at middle_dead (current (set_current middle_dead 0)))
            sample_request with
    | inr ws => [WriteHeader 503; WriteBody ("service unavailable" ++ newline)%string] = [] ++ ws
    | inl err => [WriteHeader 503; WriteBody ("service unavailable" ++ newline)%string]
                 = http_Error [] "service unavailable" StatusServiceUnavailable
    end)).
Proof.
  apply (dispatch_one_attempt upstream_down middle_dead [] sample_request).
  - intros b Hb. repeat (apply elem_of_cons in Hb as [->|Hb]; [reflexivity|]).
    by apply not_elem_of_nil in Hb.
  - reflexivity.
Defined.

Lemma serve_all_rotates up reqs :
  forall lb, slice_fits lb -> cursor_valid lb -> all_alive lb -> proxied lb ->
  exists ws lb' evs,
    serve_all up lb reqs = Ret (ws, lb', evs) /\
    length ws = length reqs /\
    backends lb' = backends lb /\
    forwards evs
      = imap (fun i r => (host_at lb ((current lb + 1 + Z.of_nat i) mod len lb), r)) reqs.
Proof.
  induction reqs as [|r reqs IH]; intros lb Hfits Hcur Hall Hprox.
  - by exists [], lb, [].
  - pose proof (NextBackend_all_alive lb Hfits Hcur Hall) as Hnext.
    destruct (NextBackend_preserves _ _ _ Hnext) as (Hbs & Hf & Hc).
    set (c1 := (current lb + 1) mod len lb) in *.
    assert (Hc1 : 0 <= c1 < len lb)
      by (apply Z.mod_pos_bound; unfold cursor_valid in Hcur; lia).
    destruct (index_in_range (backends lb) c1 Hc1) as [b Hb].
    destruct (IH (set_current lb c1)) as (ws & lb' & evs & Hrest & Hlen & Hbs' & Hfw);
      [auto|auto|by intros b' Hb'; apply Hall|by intros b' Hb'; apply Hprox|].
    cbn [serve_all].
    rewrite (ServeHTTP_proxied up lb [] r c1 _ b Hprox Hnext Hb), bind_Ret.
    rewrite Hrest, bind_Ret.
    eexists _, lb', _. split; [reflexivity|].
    split_and!; [simpl; by rewrite Hlen|done|].
    rewrite forwards_app, Hfw. cbn [imap].
    assert (Hhead : forwards
              match up (Host (URL b)) r with
              | inl err => [EvForward (Host (URL b)) r; EvPrint (err ++ newline)%string]
              | inr _ => [EvForward (Host (URL b)) r]
              end = [(host_at lb ((current lb + 1 + Z.of_nat 0) mod len lb), r)]).
    { rewrite Z.add_0_r. fold c1. rewrite (host_at_lookup _ _ _ Hb).
      by destruct (up (Host (URL b)) r). }
    rewrite Hhead. cbn [app]. f_equal.
    apply imap_ext. intros i r' _. cbn [current set_current compose].
    f_equal. change (len (set_current lb c1)) with (len lb).
    change (host_at (set_current lb c1)) with (host_at lb). f_equal.
    unfold c1. rewrite <- (Z.add_assoc ((current lb + 1) mod len lb)), Zplus_mod_idemp_l.
    f_equal. lia.
Qed.

(** X16.  With every backend alive, requests served one after the other
    are forwarded in rotation: the [i]-th request (from 0) goes to the
    backend at index [(cursor + 1 + i) mod N], whether or not the
    upstream exchanges succeed, and every request gets a response. *)
Theorem requests_rotate (up : Upstream) (lb : LoadBalancer) (reqs : list Request) :
  reachable lb -> 1 <= len lb -> all_alive lb -> proxied lb ->
  exists ws lb' evs,
    serve_all up lb reqs = Ret (ws, lb', evs) /\
    length ws = length reqs /\
    backends lb' = backends lb /\
    forwards evs
      = imap (fun i r => (host_at lb ((current lb + 1 + Z.of_nat i) mod len lb), r)) reqs.
Proof.
  intros Hreach HN Hall Hprox. destruct (reachable_valid lb Hreach) as [Hfits Hcur].
  apply serve_all_rotates; auto.
Qed.

Lemma requests_rotate_witness :
  exists ws lb' evs,
    serve_all upstream_ok three_alive [sample_request; sample_request; sample_request;
                                       sample_request] = Ret (ws, lb', evs) /\
    length ws = 4%nat /\
    backends lb' = backends three_alive /\
    forwards evs
      = imap (fun i r => (host_at three_alive
                            ((current three_alive + 1 + Z.of_nat i) mod len three_alive), r))
          [sample_request; sample_request; sample_request; sample_request].
Proof.
  apply (requests_rotate upstream_ok three_alive
           [sample_request; sample_request; sample_request; sample_request]).
  - exact three_alive_reachable.
  - vm_compute. discriminate.
  - apply all_alive_forallb. reflexivity.
  - intros b Hb. repeat (apply elem_of_cons in Hb as [->|Hb]; [reflexivity|]).
    by apply not_elem_of_nil in Hb.
Defined.

(** ** Fairness among the live backends *)

Lemma visits_app p l1 l2 : visits p (l1 ++ l2) = visits p l1 + visits p l2.
Proof. unfold visits. rewrite List.filter_app, length_app. lia. Qed.

Lemma rotation_app c N a b :
  0 < N ->
  rotation c N (a + b) = rotation c N a ++ rotation ((c + Z.of_nat a) mod N) N b.
Proof.
  intros HN. unfold rotation. rewrite seq_app, map_app. f_equal.
  cbn [Nat.add]. replace (seq a b) with (seq (a + 0) b) by (f_equal; lia).
  rewrite <- (fmap_add_seq a 0 b).
  change (fmap (Nat.add a) (seq 0 b)) with (map (Nat.add a) (seq 0 b)).
  rewrite map_map. apply map_ext. intros i. f_equal.
  rewrite <- (Z.add_assoc ((c + Z.of_nat a) mod N)), Zplus_mod_idemp_l. f_equal. lia.
Qed.

(** A stretch of dead candidates holds no visit of a live backend. *)
Lemma visits_dead_stretch lb k b (j : nat) :
  backends lb !! k = Some b -> Alive b = true ->
  (forall j', 0 <= j' < Z.of_nat j ->
     alive_at lb ((current lb + 1 + j') mod len lb) = false) ->
  visits (Z.of_nat k) (rotation (current lb) (len lb) j) = 0.
Proof.
  intros Hk Hal Hdead. unfold rotation. induction j as [|j IH]; [done|].
  rewrite seq_S, map_app, visits_app, IH by (intros j' Hj'; apply Hdead; lia).
  cbn [Nat.add map]. unfold visits. cbn [List.filter returned].
  destruct (Z.eqb_spec ((current lb + 1 + Z.of_nat j) mod len lb) (Z.of_nat k)) as [He|]; [|done].
  specialize (Hdead (Z.of_nat j)). rewrite He, (alive_at_lookup _ _ _ Hk) in Hdead.
  rewrite Hal in Hdead. discriminate Hdead. lia.
Qed.

(** The calls, seen from a live backend, are a walk over consecutive
    indices: it is returned as often as its index occurs in a rotation of
    some length after the cursor. *)
Lemma visits_as_rotation M :
  forall lb, slice_fits lb -> cursor_valid lb ->
  exists L : nat, forall k b, backends lb !! k = Some b -> Alive b = true ->
    visits (Z.of_nat k) (NextBackend_times M lb).1
      = visits (Z.of_nat k) (rotation (current lb) (len lb) L).
Proof.
  induction M as [|M IH]; intros lb Hfits Hcur; [by exists O|].
  assert (HN : 0 < len lb) by (unfold cursor_valid in Hcur; lia).
  destruct (NextBackend_first_alive lb Hfits Hcur)
    as [[Hs _]|(j & Hj & Hs & Halj & Hdead)].
  - destruct (IH lb Hfits Hcur) as [L HL]. exists L. intros k b Hk Hal.
    rewrite NextBackend_times_S, Hs. cbn [fst].
    change (None :: (NextBackend_times M lb).1) with ([None] ++ (NextBackend_times M lb).1).
    rewrite visits_app, (HL k b Hk Hal). done.
  - destruct (NextBackend_preserves _ _ _ Hs) as (Hbs & Hf & Hc).
    destruct (IH _ (Hf Hfits) (Hc Hcur)) as [L HL].
    exists (S (Z.to_nat j) + L)%nat. intros k b Hk Hal.
    rewrite NextBackend_times_S, Hs. cbn [fst].
    set (idx := (current lb + 1 + j) mod len lb) in *.
    change (Some idx :: (NextBackend_times M (set_current lb idx)).1)
      with ([Some idx] ++ (NextBackend_times M (set_current lb idx)).1).
    rewrite visits_app, (HL k b) by (by rewrite ?Hbs).
    rewrite rotation_app, visits_app by done.
    change (len (set_current lb idx)) with (len lb). cbn [current set_current].
    replace ((current lb + Z.of_nat (S (Z.to_nat j))) mod len lb) with idx
      by (unfold idx; f_equal; lia).
    f_equal.
    replace (S (Z.to_nat j)) with (Z.to_nat j + 1)%nat by lia.
    rewrite rotation_app, visits_app by done.
    rewrite (visits_dead_stretch lb k b) by (try done; intros j' Hj'; apply Hdead; lia).
    assert (Hone : rotation ((current lb + Z.of_nat (Z.to_nat j)) mod len lb) (len lb) 1
                   = [Some idx]).
    { unfold rotation, idx. cbn [seq map]. do 2 f_equal. change (Z.of_nat 0) with 0.
      rewrite <- Z.add_assoc, Zplus_mod_idemp_l. f_equal. lia. }
    by rewrite Hone.
Qed.

(** X17.  Fairness among the live backends: while the flags stay as they
    are, over any number of consecutive calls two live backends are served
    equally often up to one call, whatever the dead backends between
    them. *)
Theorem alive_backends_served_evenly (lb : LoadBalancer) (M : nat) (k1 k2 : nat)
    (b1 b2 : Backend) :
  reachable lb ->
  backends lb !! k1 = Some b1 -> Alive b1 = true ->
  backends lb !! k2 = Some b2 -> Alive b2 = true ->
  -1 <= visits (Z.of_nat k1) (NextBackend_times M lb).1
        - visits (Z.of_nat k2) (NextBackend_times M lb).1 <= 1.
Proof.
  intros Hreach Hk1 Hal1 Hk2 Hal2.
  pose proof (lookup_in_range _ _ _ Hk1) as Hr1.
  pose proof (lookup_in_range _ _ _ Hk2) as Hr2.
  destruct (reachable_valid lb Hreach) as [Hfits Hcur].
  assert (Hcur' : cursor_valid lb) by (apply Hcur; lia).
  destruct (visits_as_rotation M lb Hfits Hcur') as [L HL].
  rewrite (HL k1 b1 Hk1 Hal1), (HL k2 b2 Hk2 Hal2).
  assert (HN : 0 < len lb) by lia.
  assert (Hgap : (Z.of_nat L + len lb - 1) / len lb <= Z.of_nat L / len lb + 1).
  { replace (Z.of_nat L / len lb + 1) with ((Z.of_nat L + 1 * len lb) / len lb)
      by (rewrite Z.div_add by lia; lia).
    apply Z.div_le_mono; lia. }
  assert (Hle : Z.of_nat L / len lb <= (Z.of_nat L + len lb - 1) / len lb)
    by (apply Z.div_le_mono; lia).
  destruct (visits_rotation_fair (current lb) (len lb) (Z.of_nat k1) L HN Hr1) as [-> | ->];
    destruct (visits_rotation_fair (current lb) (len lb) (Z.of_nat k2) L HN Hr2) as [-> | ->];
    lia.
Qed.

Lemma alive_backends_served_evenly_witness :
  -1 <= visits 0 (NextBackend_times 5 middle_dead).1
        - visits 2 (NextBackend_times 5 middle_dead).1 <= 1.
Proof.
  apply (alive_backends_served_evenly middle_dead 5 0 2
           (sample_backend "a:1" true) (sample_backend "c:3" true)).
  - exact middle_dead_reachable.
  - reflexivity.
  - reflexivity.
  - reflexivity.
  - reflexivity.
Defined.

(** ** Flags *)

(** X18.  [SetAlive] on a registered backend writes that backend's flag
    and nothing else: [IsAlive] on it then reads the value written, the
    flags of all other backends read as before, and the cursor, the
    addresses and the forwarding handles are untouched. *)
Theorem SetAlive_writes_one_flag (lb : LoadBalancer) (k : nat) (alive : bool) :
  (k < length (backends lb))%nat ->
  exists lb', step (OpSetAlive k alive) lb = Ret ([], lb') /\
    alive_at lb' (Z.of_nat k) = alive /\
    (forall p, p <> Z.of_nat k -> alive_at lb' p = alive_at lb p) /\
    current lb' = current lb /\
    map URL (backends lb') = map URL (backends lb) /\
    map ReverseProxy (backends lb') = map ReverseProxy (backends lb).
Proof.
  intros Hk. destruct (step_SetAlive lb k alive Hk) as (bk & Hbk & ->).
  eexists. split; [reflexivity|]. cbn [current].
  assert (Hmap : forall {B} (f : Backend -> B), f (SetAlive bk alive) = f bk ->
            map f (<[k:=SetAlive bk alive]> (backends lb)) = map f (backends lb)).
  { intros B f Hf. change (map f) with (fmap (M:=list) f).
    rewrite list_fmap_insert, Hf. apply list_insert_id. by rewrite list_lookup_fmap, Hbk. }
  split_and!; [| |done|by apply Hmap|by apply Hmap].
  - rewrite (alive_at_lookup _ k (SetAlive bk alive)); [done|].
    cbn [backends]. by apply list_lookup_insert_eq.
  - intros p Hp. unfold alive_at, index. cbn [backends]. rewrite length_insert.
    destruct ((0 <=? p) && (p <? Z.of_nat (length (backends lb)))) eqn:Hrange; [|done].
    apply andb_true_iff in Hrange as [H0 _]. apply Z.leb_le in H0.
    rewrite list_lookup_insert_ne by lia. done.
Qed.

Lemma SetAlive_writes_one_flag_witness :
  exists lb', step (OpSetAlive 1 true) three_dead = Ret ([], lb') /\
    alive_at lb' (Z.of_nat 1) = true /\
    (forall p, p <> Z.of_nat 1 -> alive_at lb' p = alive_at three_dead p) /\
    current lb' = current three_dead /\
    map URL (backends lb') = map URL (backends three_dead) /\
    map ReverseProxy (backends lb') = map ReverseProxy (backends three_dead).
Proof.
  apply (SetAlive_writes_one_flag three_dead 1 true). vm_compute. lia.
Defined.

(** ** The state in which [main] starts to listen *)





